(** * Display-data resolution and normalisation of the GPU profiler analysers

    A shallow embedding of [prepare_display_data], [get_academic_colors],
    [create_academic_bar_chart] and [create_academic_pie_chart] from
    [src/analyser/gpu_bar_analyzer.py] and
    [src/analyser/gpu_profiler_analyzer.py].
    The constructor, [create_dataframe], [_add_statistics_box],
    [print_summary], [print_available_kernels] and [main] of the same files
    follow, each with its own conventions.

    Modelling conventions.
    - The pandas data frame [self.df] is a list of rows in frame order,
      each row carrying the columns [name], [display_name], [percentage].
    - Percentages are binary64 floats in the program; here they are exact
      rationals ([Q], compared with [==]).  [round(x, 1)] is rounding to
      the nearest tenth, ties to the even tenth.
    - Python exceptions are the [Raise] outcomes of a small error monad.
      A division by a zero total is the outcome [ZeroDivisionError]; on
      the NumPy scalars that pandas hands out the same division gives nan
      or inf without raising and the function goes on with them, and the
      outcome stands for that too: in both cases no percentages come out
      of it.
    - [used_kernels] is a finite set of strings ([gset string]).
    - The frame is taken as [create_dataframe] leaves it; that it is not
      empty and sorted by percentage, largest first, is a hypothesis where
      a property needs it.
    - Console output is not modelled. *)

From Stdlib Require Import QArith Qround Qabs Lqa ZArith List Lia.
From Stdlib Require Import String DecimalString Sorted.
From stdpp Require Import base option list gmap strings.
Import ListNotations.

(** ** Exceptions and results *)

Inductive exn : Type :=
| ZeroDivisionError
| ValueError_max_empty      (* max() arg is an empty sequence *)
| ValueError_not_in_list    (* list.index(x): x not in list *)
| IndexError.

Inductive result (A : Type) : Type :=
| Ok (a : A)
| Raise (e : exn).
Arguments Ok {A} a.
Arguments Raise {A} e.

#[global] Instance result_ret : MRet result := fun _ a => Ok a.
#[global] Instance result_bind : MBind result := fun _ _ k r =>
  match r with
  | Ok a => k a
  | Raise e => Raise e
  end.

(** ** Numbers *)

Definition Qltb (x y : Q) : bool := negb (Qle_bool y x).

(** Python's builtin [sum]: a left fold starting from [0]. *)
Definition sum (l : list Q) : Q := fold_left Qplus l 0%Q.

(** Nearest integer, ties to even. *)
Definition rint (x : Q) : Z :=
  let f := Qfloor x in
  match (x - inject_Z f ?= 1 # 2)%Q with
  | Lt => f
  | Gt => (f + 1)%Z
  | Eq => if Z.even f then f else (f + 1)%Z
  end.

(** [round(x, 1)]. *)
Definition round1 (x : Q) : Q := (inject_Z (rint (x * 10)) / 10)%Q.

(** [a / b] on floats. *)
Definition div (a b : Q) : result Q :=
  if Qeq_bool b 0 then Raise ZeroDivisionError else Ok (a / b)%Q.

(** [max(l)]: the first of the largest elements. *)
Fixpoint max_from (m : Q) (l : list Q) : Q :=
  match l with
  | [] => m
  | x :: l' => max_from (if Qltb m x then x else m) l'
  end.

Definition py_max (l : list Q) : result Q :=
  match l with
  | [] => Raise ValueError_max_empty
  | x :: l' => Ok (max_from x l')
  end.

(** [l.index(x)]: position of the first element equal to [x]. *)
Fixpoint index (l : list Q) (x : Q) : result nat :=
  match l with
  | [] => Raise ValueError_not_in_list
  | y :: l' => if Qeq_bool y x then Ok 0 else i ← index l' x; Ok (S i)
  end.

(** [l[i]] and [l[i] = x]. *)
Definition getitem {A} (l : list A) (i : nat) : result A :=
  match l !! i with
  | Some a => Ok a
  | None => Raise IndexError
  end.

Definition setitem {A} (l : list A) (i : nat) (x : A) : result (list A) :=
  if decide (i < length l) then Ok (<[i := x]> l) else Raise IndexError.

(** [str(n)] for a non-negative integer. *)
Definition str (n : nat) : string := NilEmpty.string_of_uint (Nat.to_uint n).

(** ** Data model *)

Record kernel : Type := Kernel {
  name : string;
  display_name : string;
  percentage : Q
}.

(** A colour is either a colour string (palette entries and the colours
    written in a configuration) or the sample [cmap(x)] of matplotlib's
    [tab20] colour map, whose table is not part of the repository. *)
Inductive color : Type :=
| ColorStr (s : string)
| Tab20 (x : Q).

(** One entry of [custom_config["manual_display"]]; an optional field is
    [None] when its key is missing. *)
Inductive display_item : Type :=
| individual (kernel_name : string) (label : option string) (c : option color)
| merged (kernel_names : list string) (label : option string) (c : option color)
| others (include_remaining : bool) (label : option string) (c : option color)
| unknown_type.

(** ** [get_academic_colors] *)

Definition palette : list color :=
  map ColorStr
    ["#4E79A7"; "#F28E2B"; "#E15759"; "#76B7B2"; "#59A14F";
     "#EDC948"; "#B07AA1"; "#FF9DA7"; "#9C755F"; "#BAB0AC"]%string.

Definition get_academic_colors (n_colors : nat) : list color :=
  if decide (n_colors <= length palette) then take n_colors palette
  else map (fun i => Tab20 (inject_Z (Z.of_nat i) / inject_Z (Z.of_nat n_colors))%Q)
           (seq 0 n_colors).

(** ** [prepare_display_data] *)

(** The local variables of the directive loop. *)
Record locals : Type := Locals {
  labels : list string;
  sizes : list Q;
  colors : list (option color);
  used_kernels : gset string
}.

Definition init : locals := Locals [] [] [] ∅.

(** [self.df[self.df['name'] == kernel_name].iloc[0]], which is present
    exactly when [kernel_name in self.df['name'].values]. *)
Definition lookup_kernel (df : list kernel) (kernel_name : string) : option kernel :=
  List.find (fun k => String.eqb (name k) kernel_name) df.

(** [self.df[~self.df['name'].isin(used_kernels)]]. *)
Definition not_used (df : list kernel) (used : gset string) : list kernel :=
  List.filter (fun k => bool_decide (name k ∉ used)) df.

(** The inner loop of a merged item over its kernel names. *)
Fixpoint merge_loop (df : list kernel) (kernel_names : list string)
    (total_percentage : Q) (found_kernels : list string) (used : gset string)
    : Q * list string * gset string :=
  match kernel_names with
  | [] => (total_percentage, found_kernels, used)
  | kernel_name :: rest =>
      match lookup_kernel df kernel_name with
      | Some kernel_data =>
          merge_loop df rest (total_percentage + percentage kernel_data)%Q
            (found_kernels ++ [kernel_name]) ({[kernel_name]} ∪ used)
      | None => merge_loop df rest total_percentage found_kernels used
      end
  end.

(** One iteration of [for i, item in enumerate(display_items)]. *)
Definition process_item (df : list kernel) (st : locals) (item : display_item) : locals :=
  match item with
  | individual kernel_name label c =>
      match lookup_kernel df kernel_name with
      | Some kernel_data =>
          Locals (labels st ++ [default (display_name kernel_data) label])
                 (sizes st ++ [percentage kernel_data])
                 (colors st ++ [c])
                 ({[kernel_name]} ∪ used_kernels st)
      | None => st
      end
  | merged kernel_names label c =>
      let '(total_percentage, found_kernels, used) :=
        merge_loop df kernel_names 0%Q [] (used_kernels st) in
      match found_kernels with
      | _ :: _ =>
          Locals (labels st ++
                    [default ("Merged (" ++ str (length found_kernels) ++ ")")%string label])
                 (sizes st ++ [total_percentage])
                 (colors st ++ [c])
                 used
      | [] => Locals (labels st) (sizes st) (colors st) used
      end
  | others include_remaining label c =>
      if include_remaining then
        let remaining_kernels := not_used df (used_kernels st) in
        if decide (0 < length remaining_kernels) then
          Locals (labels st ++
                    [default ("Others (" ++ str (length remaining_kernels) ++ ")")%string label])
                 (sizes st ++ [sum (map percentage remaining_kernels)])
                 (colors st ++ [c])
                 (used_kernels st)
        else st
      else st
  | unknown_type => st
  end.

(** The whole directive loop, from a given state. *)
Definition resolve_from (df : list kernel) (st : locals) (display_items : list display_item)
    : locals :=
  fold_left (process_item df) display_items st.

Definition resolve (df : list kernel) (display_items : list display_item) : locals :=
  resolve_from df init display_items.

(** The kernels listed under "Unused kernels found". *)
Definition unused_kernels (df : list kernel) (display_items : list display_item)
    : list kernel :=
  not_used df (used_kernels (resolve df display_items)).

(** Filling the missing colours: [for i in range(len(colors))], from
    position [i] on. *)
Fixpoint fill_colors (base_colors : list color) (i : nat) (cs : list (option color))
    : result (list (option color)) :=
  match cs with
  | [] => Ok []
  | c :: rest =>
      c' ← match c with
            | None => getitem base_colors i
            | Some x => Ok x
            end;
      rest' ← fill_colors base_colors (S i) rest;
      Ok (Some c' :: rest')
  end.

(** The normalisation block. *)
Definition normalize (szs : list Q) : result (list Q) :=
  let total := sum szs in
  if Qltb (1 # 100) (Qabs (total - 100)) then
    normalized_sizes ← mapM (fun size => div (size * 100) total) szs;
    let rounded_sizes := map round1 normalized_sizes in
    let rounded_total := sum rounded_sizes in
    if Qltb (5 # 100) (Qabs (rounded_total - 100)) then
      let difference := (100 - rounded_total)%Q in
      m ← py_max szs;
      max_index ← index szs m;
      r ← getitem rounded_sizes max_index;
      setitem rounded_sizes max_index (round1 (r + difference))
    else Ok rounded_sizes
  else Ok szs.

Definition prepare_display_data (df : list kernel) (display_items : list display_item)
    : result (list string * list Q * list (option color)) :=
  match display_items with
  | [] =>
      let top_kernels := take 8 df in
      let lbls := map display_name top_kernels in
      let szs := map percentage top_kernels in
      let '(lbls, szs) :=
        if decide (8 < length df) then
          (lbls ++ [("Others (" ++ str (length df - 8) ++ ")")%string],
           szs ++ [sum (map percentage (drop 8 df))])
        else (lbls, szs) in
      Ok (lbls, szs, map Some (get_academic_colors (length lbls)))
  | _ :: _ =>
      let st := resolve df display_items in
      let base_colors := get_academic_colors (length (labels st)) in
      cs ← fill_colors base_colors 0 (colors st);
      szs ← normalize (sizes st);
      Ok (labels st, szs, cs)
  end.

(** ** The chart functions, up to the sequence handed to matplotlib *)

(** One drawn entry: label, value, colour. *)
Definition slot : Type := string * Q * color.

Definition value (s : slot) : Q := snd (fst s).

Inductive chart : Type :=
| NoDataToDisplay
| Drawn (slots : list slot).

(** [zip(labels, sizes, final_colors)]. *)
Fixpoint zip3 (ls : list string) (ss : list Q) (cs : list color) : list slot :=
  match ls, ss, cs with
  | l :: ls', s :: ss', c :: cs' => (l, s, c) :: zip3 ls' ss' cs'
  | _, _, _ => []
  end.

(** The colours used by both chart functions. *)
Definition final_colors (n : nat) (custom_colors : list (option color))
    : result (list color) :=
  match custom_colors with
  | _ :: _ =>
      if forallb (fun c : option color => bool_decide (is_Some c)) custom_colors then
        Ok (omap id custom_colors)
      else
        let base_colors := get_academic_colors n in
        mapM (fun i => match custom_colors !! i with
                       | Some (Some c) => Ok c
                       | _ => getitem base_colors i
                       end) (seq 0 n)
  | [] =>
      let base_colors := get_academic_colors n in
      mapM (fun i => getitem base_colors i) (seq 0 n)
  end.

(** [combined_data.sort(key=lambda x: x[1], reverse=True)].  Python's
    sort is stable, also with [reverse=True]; a stable sort by a key is
    determined by its input, and is computed here by insertion. *)
Fixpoint insert_desc (x : slot) (l : list slot) : list slot :=
  match l with
  | [] => [x]
  | y :: l' =>
      if Qle_bool (value y) (value x) then x :: y :: l' else y :: insert_desc x l'
  end.

Definition sort_desc (l : list slot) : list slot := fold_right insert_desc [] l.

Definition create_academic_bar_chart (df : list kernel) (display_items : list display_item)
    : result chart :=
  '(lbls, szs, custom_colors) ← prepare_display_data df display_items;
  match lbls with
  | [] => Ok NoDataToDisplay
  | _ :: _ =>
      fc ← final_colors (length lbls) custom_colors;
      Ok (Drawn (sort_desc (zip3 lbls szs fc)))
  end.

Definition create_academic_pie_chart (df : list kernel) (display_items : list display_item)
    : result chart :=
  '(lbls, szs, custom_colors) ← prepare_display_data df display_items;
  match lbls with
  | [] => Ok NoDataToDisplay
  | _ :: _ =>
      fc ← final_colors (length lbls) custom_colors;
      Ok (Drawn (zip3 lbls szs fc))
  end.

(** ** Notions used in the statements *)

(** The values after rescaling and rounding, before any correction. *)
Definition rescaled (szs : list Q) : list Q :=
  map round1 (map (fun size => size * 100 / sum szs)%Q szs).

(** What the correction branch returns: position [i] holds the first
    largest original value and is the one position that changes. *)
Definition corrected_at (szs out : list Q) (i : nat) : Prop :=
  exists m r,
    szs !! i = Some m /\
    (forall j x, szs !! j = Some x -> (x <= m)%Q) /\
    (forall j x, j < i -> szs !! j = Some x -> (x < m)%Q) /\
    rescaled szs !! i = Some r /\
    out = <[i := round1 (r + (100 - sum (rescaled szs)))]> (rescaled szs).

(** The rows a merged item finds, in the order of its kernel names, and
    the names it finds. *)
Definition found_rows (df : list kernel) (kernel_names : list string) : list kernel :=
  omap (lookup_kernel df) kernel_names.

Definition found (df : list kernel) (kernel_names : list string) : list string :=
  List.filter (fun n => bool_decide (is_Some (lookup_kernel df n))) kernel_names.

(** The names an item asks for by name. *)
Definition named (item : display_item) : list string :=
  match item with
  | individual kernel_name _ _ => [kernel_name]
  | merged kernel_names _ _ => kernel_names
  | others _ _ _ => []
  | unknown_type => []
  end.

(** The three lists grow together. *)
Definition aligned (st : locals) : Prop :=
  length (sizes st) = length (labels st) /\ length (colors st) = length (labels st).

(** The frame as [create_dataframe] leaves it: sorted by percentage,
    largest first. *)
Definition descending (df : list kernel) : Prop :=
  forall i j a b, i < j -> df !! i = Some a -> df !! j = Some b ->
    (percentage b <= percentage a)%Q.

(** A frame of ten rows, sorted. *)
Definition ten_kernels : list kernel :=
  [Kernel "K1" "K1" 20; Kernel "K2" "K2" 15; Kernel "K3" "K3" 14; Kernel "K4" "K4" 12;
   Kernel "K5" "K5" 10; Kernel "K6" "K6" 9; Kernel "K7" "K7" 8; Kernel "K8" "K8" 6;
   Kernel "K9" "K9" 4; Kernel "K10" "K10" 2]%Q.

(** Largest value first. *)
Definition before (a b : slot) : Prop := (value b <= value a)%Q.

(** The slots of value [v], in the order of the list. *)
Definition with_value (v : Q) (l : list slot) : list slot :=
  List.filter (fun s => Qeq_bool (value s) v) l.

(** ** Construction of an analyser: [__init__], [get_default_kernel_mapping], [create_dataframe] *)

(** One entry of [data["kernel_statistics"]]. The column [avg_time_ms] is
    read by [print_available_kernels] only and is left out. *)
Record kernel_stat : Type := KernelStat {
  stat_name : string;
  stat_percentage : Q
}.

(** The loaded JSON object: [kernel_statistics] is [None] when the key is
    missing; [profiling_summary] is the object under that key, with its
    numeric fields, and is [None] when the key is missing. *)
Record profiling_data : Type := ProfilingData {
  kernel_statistics : option (list kernel_stat);
  profiling_summary : option (gmap string Q)
}.

(** The two [ValueError]s of [create_dataframe]. *)
Inductive frame_error : Type :=
| MissingKernelStatistics   (* Invalid JSON format: missing 'kernel_statistics' *)
| NoKernelStatistics.       (* No kernel statistics found in the data *)

Definition get_default_kernel_mapping : gmap string string :=
  list_to_map
    [("SolveXPBDHydrostatic", "Hydrostatic Solver");
     ("SolveXPBDDeviatoric", "Deviatoric Solver");
     ("UpdateSurfaceMesh", "Surface Update");
     ("UpdateStressVisualization", "Stress Visualization");
     ("PredictPositions", "Position Prediction");
     ("CollideSDF", "SDF Collision");
     ("CollideSDF_PreStep", "SDF Pre-Step");
     ("CollideParticles", "Particle Collision");
     ("SolveAttachment", "Attachment Solver");
     ("ApplyDeltas", "Delta Application");
     ("XPBDFinalize", "XPBD Finalization");
     ("UpdateMotionConstraints", "Motion Constraints");
     ("SolveConstraints", "Constraint Solving");
     ("ComputeAverageResidual", "Residual Computation");
     ("SolveStableNeoHookean", "Neo-Hookean Solver");
     ("UpdateSpatialHash", "Spatial Hashing");
     ("NormalizeSurfaceNormals", "Normal Computation");
     ("UpdateSurfaceNormals", "Surface Normals");
     ("UpdateSurfaceVertices", "Surface Vertices")]%string.

(** [kernel_name_mapping or self.get_default_kernel_mapping()]: the
    argument is [None] when it is not given; an empty dict is falsy. *)
Definition init_kernel_name_mapping (kernel_name_mapping : option (gmap string string))
    : gmap string string :=
  match kernel_name_mapping with
  | Some m => if decide (m = ∅) then get_default_kernel_mapping else m
  | None => get_default_kernel_mapping
  end.

(** [self.kernel_name_mapping.get(x, x)]. *)
Definition map_name (mapping : gmap string string) (x : string) : string :=
  default x (mapping !! x).

(** [create_dataframe].  The sort of pandas ([sort_values], whose order of
    rows with equal percentage is not fixed by the repository) is the
    parameter [sort_values]. *)
Definition create_dataframe (sort_values : list kernel -> list kernel)
    (mapping : gmap string string) (data : profiling_data)
    : frame_error + list kernel :=
  match kernel_statistics data with
  | None => inl MissingKernelStatistics
  | Some [] => inl NoKernelStatistics
  | Some (s :: stats) =>
      inr (sort_values
             (map (fun s => Kernel (stat_name s) (map_name mapping (stat_name s))
                              (stat_percentage s))
                  (s :: stats)))
  end.

(** ** The statistics: [_add_statistics_box], [print_summary], [print_available_kernels] *)

(** [sorted(sizes, reverse=True)], a stable sort, by insertion. *)
Fixpoint insert_reverse (x : Q) (l : list Q) : list Q :=
  match l with
  | [] => [x]
  | y :: l' => if Qle_bool y x then x :: y :: l' else y :: insert_reverse x l'
  end.

Definition sorted_reverse (l : list Q) : list Q := fold_right insert_reverse [] l.

(** [1000 / summary.get('avg_frame_time_ms', 16.67)]. *)
Definition estimated_fps (summary : gmap string Q) : result Q :=
  div 1000 (default (1667 # 100) (summary !! "avg_frame_time_ms"%string)).

(** The numbers written into the statistics box. *)
Record statistics : Type := Statistics {
  components : nat;
  top3_total : Q;
  fps : Q;
  frame_time : Q
}.

(** [_add_statistics_box]: [None] when it returns without a box. *)
Definition add_statistics_box (data : profiling_data) (lbls : list string) (szs : list Q)
    : result (option statistics) :=
  let summary := default ∅ (profiling_summary data) in
  if decide (summary = ∅) then Ok None
  else
    f ← estimated_fps summary;
    Ok (Some (Statistics (length lbls) (sum (take 3 (sorted_reverse szs))) f
                (default 0%Q (summary !! "avg_frame_time_ms"%string)))).

(** The numbers written by [print_summary]. *)
Record summary_report : Type := SummaryReport {
  reported_fps : option Q;
  total_kernels : nat;
  top_kernel : string * Q
}.

Definition print_summary (data : profiling_data) (df : list kernel) : result summary_report :=
  let summary := default ∅ (profiling_summary data) in
  f ← (if decide (summary = ∅) then Ok None
       else x ← estimated_fps summary; Ok (Some x));
  top ← getitem df 0;
  Ok (SummaryReport f (length df) (display_name top, percentage top)).

(** The entries of the configuration example of [print_available_kernels]:
    raw name, display name, and whether the line ends with a comma. *)
Definition configuration_example (df : list kernel) : list (string * string * bool) :=
  imap (fun i row => (name row, display_name row, bool_decide (i < 2))) (take 3 df).

(** ** The left margin of the bar chart *)

(** [max(0.15, min(0.4, label_fontsize * 0.02))] in
    [create_academic_bar_chart]. *)
Definition max2 (a b : Q) : Q := if Qltb a b then b else a.   (* [max(a, b)] *)
Definition min2 (a b : Q) : Q := if Qltb b a then b else a.   (* [min(a, b)] *)

Definition left_margin (label_fontsize : Q) : Q :=
  max2 (15 # 100) (min2 (4 # 10) (label_fontsize * (2 # 100))).

(** ** [main] *)

(** Command-line parsing is not modelled, and the calls into matplotlib and
    the file system that follow the modelled steps (drawing and saving the
    figure, creating the output directory) are taken to succeed. *)

(** [custom_config], as far as the modelled functions read it. *)
Record custom_config : Type := CustomConfig {
  manual_display : list display_item;
  add_statistics_box_flag : bool
}.

(** What [main] finds on the command line and in the files it opens. *)
Inductive loaded (A : Type) : Type :=
| Loaded (a : A)
| LoadFailed.
Arguments Loaded {A} a.
Arguments LoadFailed {A}.

Record cli_args : Type := CliArgs {
  config_file : option (loaded custom_config);   (* [None]: no [--config] *)
  json_file : loaded profiling_data;
  show_kernels : bool
}.

Inductive chart_function : Type := BarChart | PieChart.

(** The chart function as [main] calls it, with the statistics box that
    follows the drawing of the slots. *)
Definition create_chart (which : chart_function) (data : profiling_data)
    (config : custom_config) (df : list kernel) : result chart :=
  c ← match which with
      | BarChart => create_academic_bar_chart df (manual_display config)
      | PieChart => create_academic_pie_chart df (manual_display config)
      end;
  match c with
  | NoDataToDisplay => Ok NoDataToDisplay
  | Drawn slots =>
      if add_statistics_box_flag config then
        _ ← add_statistics_box data (map (fun s => fst (fst s)) slots) (map value slots);
        Ok c
      else Ok c
  end.

(** The exit code of [main] and the chart it saved, if any. *)
Record run : Type := Run {
  exit_code : nat;
  saved : option (list slot)
}.

Definition main (which : chart_function) (sort_values : list kernel -> list kernel)
    (args : cli_args) : run :=
  match config_file args with
  | Some LoadFailed => Run 1 None
  | cf =>
      let config := match cf with
                    | Some (Loaded c) => c
                    | _ => CustomConfig [] false
                    end in
      match json_file args with
      | LoadFailed => Run 1 None
      | Loaded data =>
          match create_dataframe sort_values (init_kernel_name_mapping None) data with
          | inl _ => Run 1 None
          | inr df =>
              if show_kernels args then Run 0 None
              else
                match print_summary data df with
                | Raise _ => Run 1 None
                | Ok _ =>
                    match create_chart which data config df with
                    | Raise _ => Run 1 None
                    | Ok NoDataToDisplay => Run 0 None
                    | Ok (Drawn slots) => Run 0 (Some slots)
                    end
                end
          end
      end
  end.

(** ** More notions used in the statements *)

(** What the statements ask of the parameter [sort_values]. *)
Definition sorts (sort_values : list kernel -> list kernel) : Prop :=
  forall l, sort_values l ≡ₚ l /\ descending (sort_values l).

(** A sort of rows by insertion, largest percentage first. *)
Fixpoint insert_row (x : kernel) (l : list kernel) : list kernel :=
  match l with
  | [] => [x]
  | y :: l' =>
      if Qle_bool (percentage y) (percentage x) then x :: y :: l' else y :: insert_row x l'
  end.

Definition sort_rows (l : list kernel) : list kernel := fold_right insert_row [] l.

(** An item that does not sum up the remaining kernels. *)
Definition no_remaining (item : display_item) : Prop :=
  match item with
  | others true _ _ => False
  | _ => True
  end.

(** The summary gives an average frame time of zero. *)
Definition zero_frame_time (data : profiling_data) : Prop :=
  exists summary t,
    profiling_summary data = Some summary /\
    summary !! "avg_frame_time_ms"%string = Some t /\ (t == 0)%Q.

(** Loaded data with two kernels and a frame time of 20 ms. *)
Definition sample_data : profiling_data :=
  ProfilingData (Some [KernelStat "CollideSDF" 30; KernelStat "Custom" 70]%Q)
    (Some {["avg_frame_time_ms" := 20%Q]}).

(** * Properties *)

(** ** Sums *)

Lemma fold_left_Qplus_acc (l : list Q) (a : Q) :
  (fold_left Qplus l a == a + fold_left Qplus l 0)%Q.
Proof.
  revert a. induction l as [|x l IH]; intros a; simpl.
  - lra.
  - rewrite (IH (a + x)%Q), (IH (0 + x)%Q). lra.
Qed.

Lemma sum_nil : sum [] = 0%Q.
Proof. reflexivity. Qed.

Lemma sum_cons (x : Q) (l : list Q) : (sum (x :: l) == x + sum l)%Q.
Proof. unfold sum; simpl. rewrite fold_left_Qplus_acc. lra. Qed.

Lemma sum_app (l1 l2 : list Q) : (sum (l1 ++ l2) == sum l1 + sum l2)%Q.
Proof.
  induction l1 as [|x l1 IH]; simpl.
  - rewrite sum_nil. lra.
  - rewrite !sum_cons, IH. lra.
Qed.

Lemma sum_insert (l : list Q) (i : nat) (a x : Q) :
  l !! i = Some a -> (sum (<[i := x]> l) == sum l - a + x)%Q.
Proof.
  revert i. induction l as [|y l IH]; intros [|i] H; simpl in *; try discriminate.
  - injection H as ->. rewrite !sum_cons. lra.
  - rewrite !sum_cons, (IH i H). lra.
Qed.

Lemma sum_all_zero (l : list Q) : Forall (fun v => v == 0)%Q l -> (sum l == 0)%Q.
Proof.
  induction 1 as [|x l Hx _ IH]; [reflexivity|].
  rewrite sum_cons, Hx, IH. lra.
Qed.

(** ** Comparisons *)

Lemma Qltb_true (x y : Q) : Qltb x y = true <-> (x < y)%Q.
Proof.
  unfold Qltb. rewrite negb_true_iff, <- not_true_iff_false, Qle_bool_iff.
  split; [apply Qnot_le_lt | apply Qlt_not_le].
Qed.

Lemma Qltb_false (x y : Q) : Qltb x y = false <-> (y <= x)%Q.
Proof. unfold Qltb. rewrite negb_false_iff. apply Qle_bool_iff. Qed.

(** ** Rounding *)

#[global] Instance rint_comp : Proper (Qeq ==> eq) rint.
Proof.
  intros x y H. unfold rint.
  rewrite (Qfloor_comp x y H).
  assert (E : (x - inject_Z (Qfloor y) ?= 1 # 2)%Q = (y - inject_Z (Qfloor y) ?= 1 # 2)%Q)
    by (apply Qcompare_comp; [rewrite H|]; reflexivity).
  rewrite E. reflexivity.
Qed.

Lemma rint_inject_Z (z : Z) : rint (inject_Z z) = z.
Proof.
  unfold rint. rewrite Qfloor_Z.
  assert (E : (inject_Z z - inject_Z z ?= 1 # 2)%Q = Lt) .
  { rewrite <- Qlt_alt. assert (Z0 : (inject_Z z - inject_Z z == 0)%Q) by ring.
    rewrite Z0. reflexivity. }
  rewrite E. reflexivity.
Qed.

#[global] Instance round1_comp : Proper (Qeq ==> eq) round1.
Proof. intros x y H. unfold round1. assert (E : (x * 10 == y * 10)%Q) by (rewrite H; reflexivity). rewrite (rint_comp _ _ E). reflexivity. Qed.

(** Every rounded value is a whole number of tenths, and rounding leaves
    such a value as it is. *)
Lemma round1_tenths (z : Z) : round1 (inject_Z z / 10) = (inject_Z z / 10)%Q.
Proof.
  unfold round1.
  assert (E : (inject_Z z / 10 * 10 == inject_Z z)%Q) by (field).
  rewrite (rint_comp _ _ E), rint_inject_Z. reflexivity.
Qed.

Lemma sum_round1_tenths (l : list Q) :
  exists z : Z, (sum (map round1 l) == inject_Z z / 10)%Q.
Proof.
  induction l as [|x l [z IH]]; simpl.
  - exists 0%Z. rewrite sum_nil. reflexivity.
  - exists (rint (x * 10) + z)%Z.
    rewrite sum_cons, IH, inject_Z_plus. unfold round1. field.
Qed.

(** ** [max] and [index] *)

Lemma max_from_ge (m : Q) (l : list Q) :
  (m <= max_from m l)%Q /\ forall y, y ∈ l -> (y <= max_from m l)%Q.
Proof.
  revert m. induction l as [|x l IH]; intros m; simpl.
  - split; [lra | intros y Hy; inversion Hy].
  - destruct (Qltb m x) eqn:E; destruct (IH (if Qltb m x then x else m)) as [H1 H2];
      rewrite E in *.
    + apply Qltb_true in E. split; [lra|].
      intros y [->|Hy]%elem_of_cons; auto.
    + apply Qltb_false in E. split; [lra|].
      intros y [->|Hy]%elem_of_cons; [lra | auto].
Qed.

Lemma max_from_in (m : Q) (l : list Q) : max_from m l ∈ m :: l.
Proof.
  revert m. induction l as [|x l IH]; intros m; simpl.
  - left.
  - specialize (IH (if Qltb m x then x else m)).
    apply elem_of_cons in IH as [->|IH].
    + destruct (Qltb m x); [right; left | left].
    + right; right; exact IH.
Qed.

Lemma index_found (l : list Q) (x : Q) :
  x ∈ l ->
  exists i y, index l x = Ok i /\ l !! i = Some y /\ (y == x)%Q /\
    forall j z, j < i -> l !! j = Some z -> ~ (z == x)%Q.
Proof.
  induction l as [|y l IH]; intros Hx; [inversion Hx|].
  simpl. destruct (Qeq_bool y x) eqn:E.
  - exists 0, y. apply Qeq_bool_iff in E. repeat split; auto. intros; lia.
  - apply elem_of_cons in Hx as [->|Hx].
    { rewrite Qeq_bool_refl in E. discriminate. }
    destruct (IH Hx) as (i & w & Hi & Hw & Hwx & Hfirst).
    exists (S i), w. rewrite Hi. repeat split; auto.
    intros [|j] z Hj Hz; simpl in Hz.
    + injection Hz as <-. intros Hyx. apply Qeq_bool_iff in Hyx. congruence.
    + apply (Hfirst j z); [lia | exact Hz].
Qed.

(** On a non-empty list, [sizes.index(max(sizes))] is the first position
    that holds a largest value. *)
Lemma index_max (l : list Q) :
  l <> [] ->
  exists m i y, py_max l = Ok m /\ index l m = Ok i /\ l !! i = Some y /\
    (forall j z, l !! j = Some z -> (z <= y)%Q) /\
    (forall j z, j < i -> l !! j = Some z -> (z < y)%Q).
Proof.
  destruct l as [|x l]; [congruence | intros _].
  destruct (index_found (x :: l) (max_from x l) (max_from_in x l))
    as (i & y & Hi & Hy & Hym & Hfirst).
  destruct (max_from_ge x l) as [Hx Hl].
  assert (Hall : forall j z, (x :: l) !! j = Some z -> (z <= y)%Q).
  { intros j z Hz. rewrite Hym.
    apply list_elem_of_lookup_2 in Hz. apply elem_of_cons in Hz as [->|Hz]; auto. }
  exists (max_from x l), i, y. repeat split; auto.
  intros j z Hj Hz. specialize (Hall j z Hz). specialize (Hfirst j z Hj Hz).
  apply Qle_lteq in Hall as [Hlt|Heq]; [exact Hlt|].
  exfalso. apply Hfirst. rewrite Heq, Hym. reflexivity.
Qed.

(** ** The normalisation block *)

Lemma mapM_div_ok (total : Q) (l : list Q) :
  ~ (total == 0)%Q ->
  mapM (fun size => div (size * 100) total) l = Ok (map (fun size => size * 100 / total)%Q l).
Proof.
  intros Hnz. assert (E : Qeq_bool total 0 = false).
  { apply not_true_iff_false. rewrite Qeq_bool_iff. exact Hnz. }
  induction l as [|x l IH]; [reflexivity|].
  cbn [mapM map]. rewrite IH. unfold div. rewrite E. reflexivity.
Qed.

Lemma mapM_div_zero (total : Q) (x : Q) (l : list Q) :
  (total == 0)%Q ->
  mapM (fun size => div (size * 100) total) (x :: l) = Raise ZeroDivisionError.
Proof.
  intros Hz. apply Qeq_bool_iff in Hz. cbn [mapM]. unfold div. rewrite Hz. reflexivity.
Qed.

Lemma normalize_cases (szs : list Q) :
  ~ (sum szs == 0)%Q ->
  ((Qabs (sum szs - 100) <= 1 # 100)%Q /\ normalize szs = Ok szs) \/
  ((1 # 100 < Qabs (sum szs - 100))%Q /\
   (Qabs (sum (rescaled szs) - 100) <= 5 # 100)%Q /\
   normalize szs = Ok (rescaled szs)) \/
  ((1 # 100 < Qabs (sum szs - 100))%Q /\
   (5 # 100 < Qabs (sum (rescaled szs) - 100))%Q /\
   exists i out, normalize szs = Ok out /\ corrected_at szs out i /\ (sum out == 100)%Q).
Proof.
  intros Hnz. unfold normalize.
  destruct (Qltb (1 # 100) (Qabs (sum szs - 100))) eqn:E1.
  2:{ left. apply Qltb_false in E1. auto. }
  right. apply Qltb_true in E1.
  rewrite (mapM_div_ok _ _ Hnz). cbn [mbind result_bind].
  fold (rescaled szs).
  destruct (Qltb (5 # 100) (Qabs (sum (rescaled szs) - 100))) eqn:E2.
  2:{ left. apply Qltb_false in E2. auto. }
  right. apply Qltb_true in E2. repeat split; auto.
  assert (Hne : szs <> []) by (intros ->; apply Hnz; reflexivity).
  destruct (index_max szs Hne) as (m & i & y & Hm & Hi & Hy & Hall & Hfirst).
  rewrite Hm. cbn [mbind result_bind]. rewrite Hi. cbn [mbind result_bind].
  assert (Hlen : length (rescaled szs) = length szs)
    by (unfold rescaled; rewrite !length_map; reflexivity).
  assert (Hlt : i < length (rescaled szs))
    by (rewrite Hlen; eapply lookup_lt_Some; eauto).
  destruct (lookup_lt_is_Some_2 _ _ Hlt) as [r Hr].
  unfold getitem, setitem. rewrite Hr. cbn [mbind result_bind].
  rewrite decide_True by exact Hlt.
  exists i, (<[i := round1 (r + (100 - sum (rescaled szs)))]> (rescaled szs)).
  split; [reflexivity|]. split.
  { exists y, r. repeat split; auto. }
  rewrite (sum_insert _ _ _ _ Hr).
  (* both [r] and the rounded total are whole numbers of tenths *)
  destruct (sum_round1_tenths (map (fun size => size * 100 / sum szs)%Q szs)) as [z Hz].
  fold (rescaled szs) in Hz.
  assert (Hr' : exists a : Z, r = (inject_Z a / 10)%Q).
  { unfold rescaled in Hr. apply list_lookup_fmap_Some_1 in Hr as (v & -> & _).
    eexists. reflexivity. }
  destruct Hr' as [a ->].
  assert (Et : (inject_Z a / 10 + (100 - sum (rescaled szs)) ==
                inject_Z (a + 1000 - z) / 10)%Q).
  { rewrite Hz. unfold Z.sub. rewrite !inject_Z_plus, inject_Z_opp. field. }
  rewrite (round1_comp _ _ Et), round1_tenths.
  rewrite Hz. unfold Z.sub. rewrite !inject_Z_plus, inject_Z_opp. field.
Qed.

(** ** The directive loop *)

Lemma length_found (df : list kernel) (kernel_names : list string) :
  length (found df kernel_names) = length (found_rows df kernel_names).
Proof.
  induction kernel_names as [|n ns IH]; [reflexivity|].
  unfold found, found_rows in *. simpl.
  destruct (lookup_kernel df n); simpl; [f_equal|]; exact IH.
Qed.

Lemma merge_loop_spec (df : list kernel) (kernel_names : list string)
    (t : Q) (f : list string) (u : gset string) :
  merge_loop df kernel_names t f u =
    (fold_left Qplus (map percentage (found_rows df kernel_names)) t,
     f ++ found df kernel_names,
     list_to_set (found df kernel_names) ∪ u).
Proof.
  revert t f u. induction kernel_names as [|n ns IH]; intros t f u.
  - simpl. rewrite app_nil_r, (left_id_L ∅ (∪)). reflexivity.
  - unfold found, found_rows in *. simpl.
    destruct (lookup_kernel df n) as [kd|]; simpl.
    + rewrite IH, <- app_assoc. simpl. f_equal.
      rewrite (comm_L (∪) {[n]} (list_to_set _)), (assoc_L (∪)). reflexivity.
    + apply IH.
Qed.

Lemma elem_of_found (df : list kernel) (kernel_names : list string) (n : string) :
  n ∈ found df kernel_names <-> n ∈ kernel_names /\ is_Some (lookup_kernel df n).
Proof.
  unfold found. rewrite !list_elem_of_In, filter_In, bool_decide_eq_true. reflexivity.
Qed.

Lemma used_kernels_process_item (df : list kernel) (st : locals) (item : display_item)
    (n : string) :
  n ∈ used_kernels (process_item df st item) <->
  n ∈ used_kernels st \/ (n ∈ named item /\ is_Some (lookup_kernel df n)).
Proof.
  destruct item as [kn l c | kns l c | b l c | ]; simpl.
  - destruct (lookup_kernel df kn) as [kd|] eqn:E; simpl.
    + rewrite elem_of_union, elem_of_singleton, list_elem_of_singleton.
      split; [intros [->|?]; [right; rewrite E; eauto | auto] | intros [?|[-> _]]; auto].
    + rewrite list_elem_of_singleton. split; [auto|].
      intros [?|[-> [? H]]]; [auto | congruence].
  - rewrite merge_loop_spec.
    assert (H : n ∈ (list_to_set (found df kns) ∪ used_kernels st : gset string) <->
                n ∈ used_kernels st \/ (n ∈ kns /\ is_Some (lookup_kernel df n))).
    { rewrite elem_of_union, elem_of_list_to_set, elem_of_found. tauto. }
    destruct (found df kns); simpl; exact H.
  - rewrite elem_of_nil.
    destruct b; [destruct (decide _)|]; simpl; tauto.
  - rewrite elem_of_nil. tauto.
Qed.

(** The consumed set after the loop: the names some individual or merged
    item asks for and the frame holds. Items of type others add nothing. *)
Lemma used_kernels_resolve_from (df : list kernel) (items : list display_item)
    (st : locals) (n : string) :
  n ∈ used_kernels (resolve_from df st items) <->
  n ∈ used_kernels st \/
  (exists item, item ∈ items /\ n ∈ named item /\ is_Some (lookup_kernel df n)).
Proof.
  revert st. induction items as [|item items IH]; intros st; unfold resolve_from in *; simpl.
  - split; [auto | intros [?|(item & Hin & _)]; [auto | inversion Hin]].
  - rewrite IH, used_kernels_process_item. split.
    + intros [[?|[? ?]]|(it & Hin & ? & ?)]; auto.
      * right. exists item. split; [left | auto].
      * right. exists it. split; [right; exact Hin | auto].
    + intros [?|(it & Hin & ? & ?)]; auto.
      apply elem_of_cons in Hin as [->|Hin]; [auto|].
      right. exists it. auto.
Qed.

Lemma aligned_process_item (df : list kernel) (st : locals) (item : display_item) :
  aligned st -> aligned (process_item df st item).
Proof.
  intros [H1 H2]. unfold aligned.
  destruct item as [kn l c | kns l c | b l c | ]; simpl; auto.
  - destruct (lookup_kernel df kn); simpl; rewrite ?length_app; simpl; auto with lia.
  - rewrite merge_loop_spec.
    destruct (found df kns); simpl; rewrite ?length_app; simpl; auto with lia.
  - destruct b; [destruct (decide _)|]; simpl; rewrite ?length_app; simpl; auto with lia.
Qed.

Lemma aligned_resolve_from (df : list kernel) (items : list display_item) (st : locals) :
  aligned st -> aligned (resolve_from df st items).
Proof.
  revert st. induction items as [|item items IH]; intros st H; [exact H|].
  apply IH, aligned_process_item, H.
Qed.

Lemma aligned_resolve (df : list kernel) (items : list display_item) :
  aligned (resolve df items).
Proof. apply aligned_resolve_from. split; reflexivity. Qed.

(** ** Colours *)

Lemma length_get_academic_colors (n : nat) : length (get_academic_colors n) = n.
Proof.
  unfold get_academic_colors. destruct (decide _) as [H|H].
  - rewrite length_take. lia.
  - rewrite length_map, length_seq. reflexivity.
Qed.

Lemma lookup_get_academic_colors (n i : nat) :
  i < n ->
  get_academic_colors n !! i =
    if decide (n <= 10) then palette !! i
    else Some (Tab20 (inject_Z (Z.of_nat i) / inject_Z (Z.of_nat n))).
Proof.
  intros Hi. unfold get_academic_colors. change (length palette) with 10.
  destruct (decide (n <= 10)) as [H|H].
  - apply lookup_take_lt, Hi.
  - change (map ?f ?l) with (f <$> l).
    rewrite list_lookup_fmap, lookup_seq_lt by exact Hi. reflexivity.
Qed.

Lemma fill_colors_spec (base_colors : list color) (cs : list (option color)) (i : nat) :
  i + length cs <= length base_colors ->
  exists out, fill_colors base_colors i cs = Ok out /\
    length out = length cs /\
    forall j c0, cs !! j = Some c0 ->
      exists c, out !! j = Some (Some c) /\
        match c0 with
        | Some x => c = x
        | None => base_colors !! (i + j) = Some c
        end.
Proof.
  revert i. induction cs as [|c0 cs IH]; intros i Hlen; simpl in *.
  - exists []. repeat split. intros j c0 H. inversion H.
  - destruct (IH (S i)) as (out & Hout & Hl & Hspec); [lia|].
    assert (Hb : exists b, base_colors !! i = Some b)
      by (apply lookup_lt_is_Some_2; lia).
    destruct Hb as [b Hb].
    rewrite Hout. unfold getitem. rewrite Hb.
    exists (Some (default b c0) :: out).
    split; [destruct c0; reflexivity|].
    split; [simpl; congruence|].
    intros [|j] d Hd; simpl in Hd.
    + injection Hd as <-. exists (default b c0). split; [reflexivity|].
      destruct c0; simpl; [reflexivity | rewrite Nat.add_0_r; exact Hb].
    + destruct (Hspec j d Hd) as (c & Hc & Hm). exists c. split; [exact Hc|].
      destruct d; [exact Hm | rewrite <- Nat.add_succ_comm; exact Hm].
Qed.

(** C9.  Colour resolution leaves no slot without a colour.  On the
    directive path the colours are filled without error, one per slot; a
    slot that carried a colour from its directive keeps it, and a slot
    without one gets the entry of the ten-colour palette at its own position
    when there are at most ten slots, and the [tab20] sample at
    position / slot count otherwise.  On the path without directives every
    slot gets the colour of its position in the same way. *)
Theorem colors_resolved (df : list kernel) (display_items : list display_item) :
  let st := resolve df display_items in
  let n := length (labels st) in
  (exists cs,
     fill_colors (get_academic_colors n) 0 (colors st) = Ok cs /\
     length cs = n /\
     forall i, i < n ->
       exists c, cs !! i = Some (Some c) /\
         ((forall x, colors st !! i = Some (Some x) -> c = x) /\
          (colors st !! i = Some None ->
             if decide (n <= 10) then palette !! i = Some c
             else c = Tab20 (inject_Z (Z.of_nat i) / inject_Z (Z.of_nat n))))) /\
  (exists lbls szs cs,
     prepare_display_data df [] = Ok (lbls, szs, cs) /\
     length cs = length lbls /\
     forall i, i < length lbls ->
       exists c, cs !! i = Some (Some c) /\
         if decide (length lbls <= 10) then palette !! i = Some c
         else c = Tab20 (inject_Z (Z.of_nat i) / inject_Z (Z.of_nat (length lbls)))).
Proof.
  intros st n. split.
  - destruct (aligned_resolve df display_items) as [_ Hc]. fold st in Hc. fold n in Hc.
    destruct (fill_colors_spec (get_academic_colors n) (colors st) 0)
      as (cs & Hcs & Hl & Hspec).
    { rewrite length_get_academic_colors. lia. }
    exists cs. split; [exact Hcs|]. split; [lia|].
    intros i Hi.
    destruct (lookup_lt_is_Some_2 (colors st) i) as [c0 Hc0]; [lia|].
    destruct (Hspec i c0 Hc0) as (c & Hci & Hm).
    exists c. split; [exact Hci|]. split.
    + intros x Hx. rewrite Hx in Hc0. injection Hc0 as <-. exact Hm.
    + intros Hx. rewrite Hx in Hc0. injection Hc0 as <-.
      simpl in Hm. rewrite lookup_get_academic_colors in Hm by exact Hi.
      destruct (decide (n <= 10)); [exact Hm | congruence].
  - simpl. destruct (decide (8 < length df)).
    all: do 3 eexists; split; [reflexivity|].
    all: rewrite length_map, length_get_academic_colors; split; [reflexivity|].
    all: intros i Hi; change (map ?f ?l) with (f <$> l) at 1.
    all: rewrite list_lookup_fmap, lookup_get_academic_colors by exact Hi.
    all: destruct (decide _) as [H|H].
    all: try (eexists; split; reflexivity).
    all: destruct (lookup_lt_is_Some_2 palette i) as [c Hc]; [simpl; lia|].
    all: exists c; rewrite Hc; split; reflexivity.
Qed.

(** ** Normalisation *)

Lemma normalize_ok (szs : list Q) :
  ~ (sum szs == 0)%Q ->
  exists out, normalize szs = Ok out /\
    length out = length szs /\
    (Qabs (sum out - 100) <= 5 # 100)%Q /\
    (((Qabs (sum szs - 100) <= 1 # 100)%Q /\ out = szs) \/
     ((1 # 100 < Qabs (sum szs - 100))%Q /\
      (Qabs (sum (rescaled szs) - 100) <= 5 # 100)%Q /\ out = rescaled szs) \/
     ((1 # 100 < Qabs (sum szs - 100))%Q /\
      (5 # 100 < Qabs (sum (rescaled szs) - 100))%Q /\
      exists i, corrected_at szs out i)).
Proof.
  intros Hnz.
  assert (Hlen : length (rescaled szs) = length szs)
    by (unfold rescaled; rewrite !length_map; reflexivity).
  destruct (normalize_cases szs Hnz)
    as [[H1 ->] | [(H1 & H2 & ->) | (H1 & H2 & i & out & -> & Hc & Hs)]].
  - exists szs. repeat split; auto.
    eapply Qle_trans; [exact H1 | discriminate].
  - exists (rescaled szs). repeat split; auto.
  - exists out. repeat split; eauto 10.
    + destruct Hc as (m & r & _ & _ & _ & _ & ->). rewrite length_insert. exact Hlen.
    + rewrite (Qabs_wd _ 0%Q) by (rewrite Hs; ring). discriminate.
Qed.

(** C5, as the code has it.  A slot list whose values do not sum to zero
    (it is then not empty) is normalised without error to a list of the
    same length whose sum is within 0.05 of 100: the values are kept when
    the total is within 0.01 of 100; otherwise each is rescaled by
    100/total and rounded to one decimal, and when the rounded total is
    further than 0.05 from 100 one position is corrected. *)
Theorem normalize_sums_to_100 (szs : list Q) :
  ~ (sum szs == 0)%Q ->
  exists out, normalize szs = Ok out /\
    length out = length szs /\
    (Qabs (sum out - 100) <= 5 # 100)%Q /\
    (((Qabs (sum szs - 100) <= 1 # 100)%Q /\ out = szs) \/
     ((1 # 100 < Qabs (sum szs - 100))%Q /\
      (Qabs (sum (rescaled szs) - 100) <= 5 # 100)%Q /\ out = rescaled szs) \/
     ((1 # 100 < Qabs (sum szs - 100))%Q /\
      (5 # 100 < Qabs (sum (rescaled szs) - 100))%Q /\
      exists i, corrected_at szs out i)).
Proof. exact (normalize_ok szs). Qed.

Lemma normalize_sums_to_100_witness :
  exists out, normalize [10; 10; 10]%Q = Ok out /\
    length out = 3 /\
    (Qabs (sum out - 100) <= 5 # 100)%Q.
Proof.
  destruct (normalize_sums_to_100 [10; 10; 10]%Q) as (out & H1 & H2 & H3 & _).
  - vm_compute. discriminate.
  - exists out. auto.
Defined.

(** C5 as stated fails on a slot list that directive processing produces
    from a single record of percentage 0: the list is not empty, and
    normalisation stops at the division by the zero total. *)
Lemma normalize_zero_total_counterexample :
  let szs := sizes (resolve [Kernel "A" "A" 0] [individual "A" None None]) in
  szs <> [] /\
  normalize szs = Raise ZeroDivisionError /\
  ~ (exists out, normalize szs = Ok out /\ (Qabs (sum out - 100) <= 5 # 100)%Q).
Proof.
  split; [discriminate|]. split; [reflexivity|].
  intros (out & H & _). vm_compute in H. discriminate.
Qed.

(** C6.  When the rescaled and rounded values sum to more than 0.05 away
    from 100, the result differs from them at exactly one position [i]:
    the first position of the largest original value.  That position holds
    its rounded value plus [100 - rounded_total], rounded again to one
    decimal; every other position keeps its rounded value. *)
Theorem correction_at_first_largest (szs : list Q) :
  ~ (sum szs == 0)%Q ->
  (1 # 100 < Qabs (sum szs - 100))%Q ->
  (5 # 100 < Qabs (sum (rescaled szs) - 100))%Q ->
  exists i m r out,
    normalize szs = Ok out /\
    szs !! i = Some m /\
    (forall j x, szs !! j = Some x -> (x <= m)%Q) /\
    (forall j x, j < i -> szs !! j = Some x -> (x < m)%Q) /\
    rescaled szs !! i = Some r /\
    out !! i = Some (round1 (r + (100 - sum (rescaled szs)))) /\
    (forall j, j <> i -> out !! j = rescaled szs !! j).
Proof.
  intros Hnz H1 H2.
  destruct (normalize_cases szs Hnz)
    as [[H1' _] | [(_ & H2' & _) | (_ & _ & i & out & Hout & Hc & _)]].
  - exfalso. apply (Qlt_not_le _ _ H1), H1'.
  - exfalso. apply (Qlt_not_le _ _ H2), H2'.
  - destruct Hc as (m & r & Hm & Hall & Hfirst & Hr & ->).
    exists i, m, r. eexists. split; [exact Hout|].
    repeat split; auto.
    + apply list_lookup_insert_eq. eapply lookup_lt_Some, Hr.
    + intros j Hj. apply list_lookup_insert_ne. congruence.
Qed.

Lemma correction_at_first_largest_witness :
  exists i m r out,
    normalize [10; 10; 10]%Q = Ok out /\
    [10; 10; 10]%Q !! i = Some m /\
    (forall j x, [10; 10; 10]%Q !! j = Some x -> (x <= m)%Q) /\
    (forall j x, j < i -> [10; 10; 10]%Q !! j = Some x -> (x < m)%Q) /\
    rescaled [10; 10; 10]%Q !! i = Some r /\
    out !! i = Some (round1 (r + (100 - sum (rescaled [10; 10; 10]%Q)))) /\
    (forall j, j <> i -> out !! j = rescaled [10; 10; 10]%Q !! j).
Proof.
  apply (correction_at_first_largest [10; 10; 10]%Q).
  - vm_compute. discriminate.
  - vm_compute. reflexivity.
  - vm_compute. reflexivity.
Defined.

Lemma normalize_all_zero (szs : list Q) :
  szs <> [] -> Forall (fun v => v == 0)%Q szs -> normalize szs = Raise ZeroDivisionError.
Proof.
  intros Hne Hz. apply sum_all_zero in Hz.
  destruct szs as [|x szs]; [congruence|].
  unfold normalize.
  assert (E : Qltb (1 # 100) (Qabs (sum (x :: szs) - 100)) = true).
  { apply Qltb_true. rewrite (Qabs_wd _ (-100)%Q) by (rewrite Hz; ring). reflexivity. }
  rewrite E, (mapM_div_zero _ _ _ Hz). reflexivity.
Qed.

(** The colours of the directive path are always filled without error. *)
Lemma fill_colors_resolve (df : list kernel) (display_items : list display_item) :
  let st := resolve df display_items in
  exists cs, fill_colors (get_academic_colors (length (labels st))) 0 (colors st) = Ok cs.
Proof.
  intros st. destruct (aligned_resolve df display_items) as [_ Hc]. fold st in Hc.
  destruct (fill_colors_spec (get_academic_colors (length (labels st))) (colors st) 0)
    as (cs & Hcs & _).
  { rewrite length_get_academic_colors. lia. }
  exists cs. exact Hcs.
Qed.

(** C10.  The rescaling divides by the sum of the slot values without a
    test for zero: whenever a non-empty directive list resolves to at
    least one slot and every slot value is 0, [prepare_display_data] ends
    in the division by zero. *)
Theorem zero_total_divides_by_zero (df : list kernel) (item : display_item)
    (items : list display_item) :
  sizes (resolve df (item :: items)) <> [] ->
  Forall (fun v => v == 0)%Q (sizes (resolve df (item :: items))) ->
  prepare_display_data df (item :: items) = Raise ZeroDivisionError.
Proof.
  intros Hne Hz. unfold prepare_display_data.
  destruct (fill_colors_resolve df (item :: items)) as [cs Hcs]. cbv zeta in Hcs.
  rewrite Hcs. cbn [mbind result_bind].
  rewrite (normalize_all_zero _ Hne Hz). reflexivity.
Qed.

Lemma zero_total_divides_by_zero_witness :
  Forall (fun r => 0 <= percentage r <= 100)%Q [Kernel "A" "A" 0; Kernel "B" "B" 0] /\
  prepare_display_data [Kernel "A" "A" 0; Kernel "B" "B" 0]
    [individual "A" None None; others true None None] = Raise ZeroDivisionError.
Proof.
  split.
  - repeat constructor; simpl; discriminate.
  - apply (zero_total_divides_by_zero [Kernel "A" "A" 0; Kernel "B" "B" 0]
             (individual "A" None None) [others true None None]).
    + vm_compute. discriminate.
    + vm_compute. repeat constructor.
Defined.

Lemma sum_default_policy (df : list kernel) :
  (sum (map percentage (take 8 df) ++ [sum (map percentage (drop 8 df))]) ==
   sum (map percentage df))%Q.
Proof.
  rewrite <- (take_drop 8 df) at 3.
  rewrite map_app, !sum_app, sum_cons, sum_nil. lra.
Qed.

(** C1, as the code has it.  With a non-empty directive list whose slot
    values do not sum to zero, the values returned after selection, colour
    resolution and normalisation sum to 100 within 0.05.  Without
    directives, and for every frame, the values are returned as selected,
    with no normalisation: their sum is the sum of the percentages of all
    records. *)
Theorem displayed_sum (df : list kernel) (item : display_item)
    (items : list display_item) :
  (~ (sum (sizes (resolve df (item :: items))) == 0)%Q ->
   exists lbls szs cs,
     prepare_display_data df (item :: items) = Ok (lbls, szs, cs) /\
     (Qabs (sum szs - 100) <= 5 # 100)%Q) /\
  (exists lbls szs cs,
     prepare_display_data df [] = Ok (lbls, szs, cs) /\
     (sum szs == sum (map percentage df))%Q).
Proof.
  split.
  - intros Hnz. unfold prepare_display_data.
    destruct (fill_colors_resolve df (item :: items)) as [cs Hcs]. cbv zeta in Hcs.
    destruct (normalize_ok _ Hnz) as (out & Hout & _ & Hsum & _).
    rewrite Hcs. cbn [mbind result_bind]. rewrite Hout. cbn [mbind result_bind].
    do 3 eexists. split; [reflexivity | exact Hsum].
  - simpl. destruct (decide (8 < length df)) as [H|H].
    + do 3 eexists. split; [reflexivity | apply sum_default_policy].
    + do 3 eexists. split; [reflexivity|].
      rewrite take_ge by lia. reflexivity.
Qed.

Lemma displayed_sum_witness :
  exists lbls szs cs,
    prepare_display_data [Kernel "A" "A" 10; Kernel "B" "B" 10; Kernel "C" "C" 10]
      [individual "A" None None; individual "B" None None; individual "C" None None]
      = Ok (lbls, szs, cs) /\
    (Qabs (sum szs - 100) <= 5 # 100)%Q.
Proof.
  destruct (displayed_sum [Kernel "A" "A" 10; Kernel "B" "B" 10; Kernel "C" "C" 10]
              (individual "A" None None)
              [individual "B" None None; individual "C" None None]) as [H _].
  apply H. vm_compute. discriminate.
Defined.

(** C1 as stated fails without directives: three records of 10 percent
    each are returned as 10, 10, 10, whose sum 30 is not within 0.05 of
    100. *)
Lemma default_path_not_normalized_counterexample :
  exists lbls cs,
    prepare_display_data [Kernel "A" "A" 10; Kernel "B" "B" 10; Kernel "C" "C" 10] []
      = Ok (lbls, [10; 10; 10]%Q, cs) /\
    (sum [10; 10; 10] == 30)%Q /\
    ~ (Qabs (sum [10; 10; 10] - 100) <= 5 # 100)%Q.
Proof.
  do 2 eexists. split; [reflexivity|]. split; [reflexivity|].
  vm_compute. intros H. apply H. reflexivity.
Qed.

(** ** The path without directives *)

(** C7.  Without directives the first 8 rows of the frame (the 8 largest
    percentages, the frame being sorted) become one slot each, with their
    display name and raw percentage; exactly when the frame has more than 8
    rows, one more slot follows, labelled "Others (<rows - 8>)", whose
    value is the sum of the percentages of the rows after the 8th.  A frame
    of 10 rows gives 9 slots, the last one "Others (2)" with the sum of the
    9th and 10th percentage. *)
Theorem default_policy (df : list kernel) :
  descending df ->
  exists lbls szs cs,
    prepare_display_data df [] = Ok (lbls, szs, cs) /\
    length lbls = (if decide (8 < length df) then 9 else length df) /\
    length szs = length lbls /\
    (forall i r, i < 8 -> df !! i = Some r ->
       lbls !! i = Some (display_name r) /\
       szs !! i = Some (percentage r) /\
       forall j r', 8 <= j -> df !! j = Some r' -> (percentage r' <= percentage r)%Q) /\
    (8 < length df ->
       lbls !! 8 = Some ("Others (" ++ str (length df - 8) ++ ")")%string /\
       szs !! 8 = Some (sum (map percentage (drop 8 df)))) /\
    (length df = 10 ->
       exists r9 r10 v,
         df !! 8 = Some r9 /\ df !! 9 = Some r10 /\
         length lbls = 9 /\
         lbls !! 8 = Some "Others (2)"%string /\
         szs !! 8 = Some v /\ (v == percentage r9 + percentage r10)%Q).
Proof.
  intros Hsorted.
  assert (Htop : forall i r, i < 8 -> df !! i = Some r ->
            map display_name (take 8 df) !! i = Some (display_name r) /\
            map percentage (take 8 df) !! i = Some (percentage r)).
  { intros i r Hi Hr. change (map ?f ?l) with (f <$> l).
    rewrite !list_lookup_fmap, lookup_take_lt, Hr by exact Hi. split; reflexivity. }
  assert (Hlt : length (take 8 df) = Nat.min 8 (length df)) by apply length_take.
  simpl. destruct (decide (8 < length df)) as [Hlen|Hlen].
  - do 3 eexists. split; [reflexivity|].
    assert (L1 : length (map display_name (take 8 df)) = 8) by (rewrite length_map; lia).
    assert (L2 : length (map percentage (take 8 df)) = 8) by (rewrite length_map; lia).
    split; [rewrite length_app, L1; reflexivity|].
    split; [rewrite !length_app, L1, L2; reflexivity|].
    split; [|split].
    + intros i r Hi Hr. destruct (Htop i r Hi Hr) as [H1 H2].
      rewrite !lookup_app_l by lia. repeat split; auto.
      intros j r' Hj Hr'. apply (Hsorted i j); auto; lia.
    + intros _. rewrite !lookup_app_r by lia. rewrite L1, L2. split; reflexivity.
    + intros H10. rewrite H10.
      destruct df as [|k1 [|k2 [|k3 [|k4 [|k5 [|k6 [|k7 [|k8 [|k9 [|k10 [|]]]]]]]]]]];
        try discriminate.
      exists k9, k10. eexists. repeat split.
      unfold sum; simpl. lra.
  - do 3 eexists. split; [reflexivity|].
    rewrite take_ge by lia. rewrite !length_map.
    repeat split; auto; try lia.
    + rewrite <- (take_ge df 8) by lia. apply Htop; auto.
    + rewrite <- (take_ge df 8) by lia. apply Htop; auto.
    + intros j r' Hj Hr'. apply lookup_lt_Some in Hr'. lia.
Qed.

Lemma descending_ten_kernels : descending ten_kernels.
Proof.
  intros i j a b Hij Hi Hj.
  assert (Hj' : j < 10) by (apply lookup_lt_Some in Hj; exact Hj).
  do 10 (destruct i as [|i]; [injection Hi as <-;
    do 10 (destruct j as [|j]; [try lia; injection Hj as <-; simpl; discriminate|]); lia|]).
  lia.
Defined.

Lemma default_policy_witness :
  exists lbls szs cs,
    prepare_display_data ten_kernels [] = Ok (lbls, szs, cs) /\
    length lbls = 9 /\
    lbls !! 8 = Some "Others (2)"%string /\
    exists v, szs !! 8 = Some v /\ (v == 6)%Q.
Proof.
  destruct (default_policy ten_kernels descending_ten_kernels)
    as (lbls & szs & cs & H & _ & _ & _ & _ & H10).
  destruct (H10 eq_refl) as (r9 & r10 & v & H9 & H10' & Hl & Hlbl & Hv & Hsum).
  exists lbls, szs, cs. repeat split; auto.
  exists v. split; [exact Hv|].
  injection H9 as <-. injection H10' as <-. exact Hsum.
Defined.

(** ** Items that name kernels *)

(** C8.  An individual item whose kernel name is not in the frame leaves
    every local variable as it was, and the loop goes on with the items
    that follow.  A merged item skips each name that is not in the frame;
    when it finds at least one, it adds one slot whose value is the sum of
    the percentages of the rows found, and when it finds none it adds no
    slot.  Processing an item has no error outcome. *)
Theorem unknown_kernel_skipped (df : list kernel) (st : locals)
    (kernel_name : string) (kernel_names : list string)
    (l l' : option string) (c c' : option color) (rest : list display_item) :
  lookup_kernel df kernel_name = None ->
  (process_item df st (individual kernel_name l c) = st /\
   resolve_from df st (individual kernel_name l c :: rest) = resolve_from df st rest) /\
  (let st' := process_item df st (merged kernel_names l' c') in
   match found df kernel_names with
   | [] => labels st' = labels st /\ sizes st' = sizes st /\ colors st' = colors st
   | _ :: _ =>
       labels st' =
         labels st ++
           [default ("Merged (" ++ str (length (found df kernel_names)) ++ ")")%string l'] /\
       sizes st' = sizes st ++ [sum (map percentage (found_rows df kernel_names))] /\
       colors st' = colors st ++ [c']
   end).
Proof.
  intros Hmiss. split.
  - assert (E : process_item df st (individual kernel_name l c) = st)
      by (simpl; rewrite Hmiss; reflexivity).
    split; [exact E|]. unfold resolve_from. simpl fold_left at 1.
    rewrite Hmiss. reflexivity.
  - cbv zeta. unfold process_item. rewrite merge_loop_spec.
    destruct (found df kernel_names); simpl; auto.
Qed.

Lemma unknown_kernel_skipped_witness :
  let df := [Kernel "A" "A" 30; Kernel "B" "B" 20]%Q in
  process_item df init (individual "DoesNotExist" None None) = init /\
  sizes (process_item df init (merged ["A"; "Missing"; "B"]%string None None)) = [50%Q].
Proof.
  intros df.
  destruct (unknown_kernel_skipped df init "DoesNotExist" ["A"; "Missing"; "B"]%string
              None None None None [] eq_refl) as [[H1 _] H2].
  split; [exact H1|].
  cbv zeta in H2. destruct H2 as (_ & H2 & _).
  rewrite H2. reflexivity.
Defined.

(** ** Items of type others and the consumed set *)

Lemma elem_of_not_used (df : list kernel) (used : gset string) (r : kernel) :
  r ∈ not_used df used <-> r ∈ df /\ name r ∉ used.
Proof.
  unfold not_used. rewrite !list_elem_of_In, filter_In, bool_decide_eq_true. reflexivity.
Qed.

Lemma lookup_kernel_is_Some (df : list kernel) (r : kernel) :
  r ∈ df -> is_Some (lookup_kernel df (name r)).
Proof.
  unfold lookup_kernel. induction df as [|r' df IH]; intros H; [inversion H|].
  simpl. destruct (String.eqb (name r') (name r)) eqn:E; [eauto|].
  apply elem_of_cons in H as [->|H]; [|auto].
  rewrite String.eqb_refl in E. discriminate.
Qed.

(** C2, as the code has it.  An item of type others never changes the
    consumed set, whether it emits a slot or not, so the kernels of its
    remaining set stay unconsumed: an others item that follows sees the
    same remaining set, and after the loop the consumed set holds exactly
    the names that an individual or merged item asks for and the frame
    holds, so the unused-kernel report lists every row that no individual
    or merged item names, the rows summed into an others slot included. *)
Theorem others_marks_nothing (df : list kernel) (st : locals)
    (include_remaining : bool) (l : option string) (c : option color)
    (display_items : list display_item) :
  used_kernels (process_item df st (others include_remaining l c)) = used_kernels st /\
  not_used df (used_kernels (process_item df st (others include_remaining l c))) =
    not_used df (used_kernels st) /\
  (forall n, n ∈ used_kernels (resolve df display_items) <->
     exists item, item ∈ display_items /\ n ∈ named item /\ is_Some (lookup_kernel df n)) /\
  (forall r, r ∈ unused_kernels df display_items <->
     r ∈ df /\ ~ exists item, item ∈ display_items /\ name r ∈ named item).
Proof.
  assert (E : used_kernels (process_item df st (others include_remaining l c)) =
              used_kernels st).
  { simpl. destruct include_remaining; [destruct (decide _)|]; reflexivity. }
  assert (U : forall n, n ∈ used_kernels (resolve df display_items) <->
     exists item, item ∈ display_items /\ n ∈ named item /\ is_Some (lookup_kernel df n)).
  { intros n. unfold resolve. rewrite used_kernels_resolve_from. simpl.
    rewrite elem_of_empty. tauto. }
  split; [exact E|]. split; [rewrite E; reflexivity|]. split; [exact U|].
  intros r. unfold unused_kernels. rewrite elem_of_not_used, U. split.
  - intros [Hr Hn]. split; [exact Hr|].
    intros (item & Hin & Hnamed). apply Hn. exists item.
    auto using lookup_kernel_is_Some.
  - intros [Hr Hn]. split; [exact Hr|].
    intros (item & Hin & Hnamed & _). apply Hn. eauto.
Qed.

(** C2 as stated fails: after an others item has emitted a slot for the
    remaining kernel B, B is still not consumed; the others item that
    follows has B in its remaining set again, and B is reported unused. *)
Lemma others_not_consumed_counterexample :
  let df := [Kernel "A" "A" 60; Kernel "B" "B" 40]%Q in
  let before := resolve df [individual "A" None None] in
  let after := process_item df before (others true None None) in
  not_used df (used_kernels before) = [Kernel "B" "B" 40] /\
  labels after = ["A"; "Others (1)"]%string /\
  ("B"%string ∉ used_kernels after) /\
  not_used df (used_kernels after) = [Kernel "B" "B" 40] /\
  labels (process_item df after (others true None None)) =
    ["A"; "Others (1)"; "Others (1)"]%string /\
  unused_kernels df [individual "A" None None; others true None None] =
    [Kernel "B" "B" 40].
Proof.
  cbv zeta. repeat split; try (vm_compute; reflexivity).
  apply (bool_decide_unpack _). vm_compute. exact I.
Qed.

(** ** Zero slots *)

Lemma prepare_display_data_zero_slots (df : list kernel) (item : display_item)
    (items : list display_item) :
  labels (resolve df (item :: items)) = [] ->
  prepare_display_data df (item :: items) = Raise ValueError_max_empty.
Proof.
  intros Hl. unfold prepare_display_data.
  destruct (aligned_resolve df (item :: items)) as [Hs Hc].
  rewrite Hl in *.
  apply length_zero_iff_nil in Hs. apply length_zero_iff_nil in Hc.
  rewrite Hs, Hc. reflexivity.
Qed.

(** C3.  When a non-empty directive list resolves to zero slots,
    [prepare_display_data] raises the [ValueError] of [max] on the empty
    list inside the rounding correction; both chart functions pass it on
    and never reach their "No data to display" return. *)
Theorem zero_slots_raise (df : list kernel) (item : display_item)
    (items : list display_item) :
  labels (resolve df (item :: items)) = [] ->
  prepare_display_data df (item :: items) = Raise ValueError_max_empty /\
  create_academic_bar_chart df (item :: items) = Raise ValueError_max_empty /\
  create_academic_pie_chart df (item :: items) = Raise ValueError_max_empty.
Proof.
  intros Hl.
  pose proof (prepare_display_data_zero_slots df item items Hl) as E.
  unfold create_academic_bar_chart, create_academic_pie_chart.
  rewrite E. auto.
Qed.

Lemma zero_slots_raise_witness :
  create_academic_bar_chart [Kernel "A" "A" 100]
    [individual "DoesNotExist" None None] = Raise ValueError_max_empty /\
  create_academic_pie_chart [Kernel "A" "A" 100]
    [individual "DoesNotExist" None None] = Raise ValueError_max_empty.
Proof.
  destruct (zero_slots_raise [Kernel "A" "A" 100]
              (individual "DoesNotExist" None None) [] eq_refl) as (_ & H1 & H2).
  split; [exact H1 | exact H2].
Defined.

(** For a frame with at least one row (and [create_dataframe] accepts no
    other) the "No data to display" return is never reached. *)
Lemma no_data_unreachable (df : list kernel) (display_items : list display_item) :
  df <> [] -> create_academic_bar_chart df display_items <> Ok NoDataToDisplay.
Proof.
  intros Hdf. destruct display_items as [|item items].
  - destruct df as [|r df]; [congruence|].
    unfold create_academic_bar_chart. simpl.
    destruct (decide _); simpl; destruct (final_colors _ _); discriminate.
  - destruct (labels (resolve df (item :: items))) as [|lb lbs] eqn:El.
    + unfold create_academic_bar_chart.
      rewrite (prepare_display_data_zero_slots df item items El). discriminate.
    + unfold create_academic_bar_chart, prepare_display_data.
      rewrite El.
      destruct (fill_colors _ _ _); [|discriminate]. cbn [mbind result_bind].
      destruct (normalize _); [|discriminate]. cbn [mbind result_bind].
      destruct (final_colors _ _); discriminate.
Qed.

(** ** The order of the drawn slots *)

Lemma insert_desc_perm (x : slot) (l : list slot) : insert_desc x l ≡ₚ x :: l.
Proof.
  induction l as [|y l IH]; simpl; [reflexivity|].
  destruct (Qle_bool (value y) (value x)); [reflexivity|].
  rewrite IH. apply perm_swap.
Qed.

Lemma sort_desc_perm (l : list slot) : sort_desc l ≡ₚ l.
Proof.
  induction l as [|x l IH]; simpl; [reflexivity|].
  rewrite insert_desc_perm, IH. reflexivity.
Qed.

Lemma insert_desc_sorted (x : slot) (l : list slot) :
  StronglySorted before l -> StronglySorted before (insert_desc x l).
Proof.
  induction 1 as [|y l Hl IH Hy]; simpl.
  - repeat constructor.
  - destruct (Qle_bool (value y) (value x)) eqn:E.
    + apply Qle_bool_iff in E. constructor; [constructor; assumption|].
      constructor; [exact E|].
      eapply Forall_impl; [exact Hy|]. unfold before. intros z Hz. simpl in Hz. lra.
    + constructor; [exact IH|].
      rewrite insert_desc_perm. constructor; [|exact Hy].
      unfold before. apply Qlt_le_weak, Qnot_le_lt. intros H.
      apply Qle_bool_iff in H. congruence.
Qed.

Lemma sort_desc_sorted (l : list slot) : StronglySorted before (sort_desc l).
Proof.
  induction l as [|x l IH]; simpl; [constructor | apply insert_desc_sorted, IH].
Qed.

Lemma insert_desc_stable (v : Q) (x : slot) (l : list slot) :
  with_value v (insert_desc x l) = with_value v (x :: l).
Proof.
  induction l as [|y l IH]; [reflexivity|].
  cbn [insert_desc]. destruct (Qle_bool (value y) (value x)) eqn:E; [reflexivity|].
  unfold with_value in *. cbn [List.filter] in *. rewrite IH.
  destruct (Qeq_bool (value y) v) eqn:Ey; [|reflexivity].
  destruct (Qeq_bool (value x) v) eqn:Ex; [|reflexivity].
  apply Qeq_bool_iff in Ey, Ex.
  assert (Hle : (value y <= value x)%Q) by (rewrite Ey, Ex; apply Qle_refl).
  apply Qle_bool_iff in Hle. congruence.
Qed.

Lemma sort_desc_stable (v : Q) (l : list slot) :
  with_value v (sort_desc l) = with_value v l.
Proof.
  induction l as [|x l IH]; [reflexivity|].
  cbn [sort_desc fold_right]. fold (sort_desc l).
  rewrite insert_desc_stable. unfold with_value in *. cbn [List.filter].
  rewrite IH. reflexivity.
Qed.

(** C4, as the code has it.  The bar chart draws the slots sorted by
    their normalised value, largest first, slots of equal value in their
    order of emission; the pie chart draws the same slots in their order of
    emission, without sorting. *)
Theorem bar_chart_sorted (df : list kernel) (display_items : list display_item)
    (slots : list slot) :
  create_academic_bar_chart df display_items = Ok (Drawn slots) ->
  exists lbls szs custom_colors fc,
    prepare_display_data df display_items = Ok (lbls, szs, custom_colors) /\
    final_colors (length lbls) custom_colors = Ok fc /\
    slots ≡ₚ zip3 lbls szs fc /\
    StronglySorted before slots /\
    (forall v, with_value v slots = with_value v (zip3 lbls szs fc)) /\
    create_academic_pie_chart df display_items = Ok (Drawn (zip3 lbls szs fc)).
Proof.
  unfold create_academic_bar_chart, create_academic_pie_chart.
  destruct (prepare_display_data df display_items) as [[[lbls szs] cc]|e];
    cbn [mbind result_bind]; [|discriminate].
  destruct lbls as [|lb lbls]; [discriminate|].
  destruct (final_colors _ cc) as [fc|e] eqn:Ef; cbn [mbind result_bind]; [|discriminate].
  intros H. injection H as <-.
  exists (lb :: lbls), szs, cc, fc.
  split; [reflexivity|]. split; [exact Ef|].
  split; [apply sort_desc_perm|]. split; [apply sort_desc_sorted|].
  split; [intros v; apply sort_desc_stable | reflexivity].
Qed.

Lemma bar_chart_sorted_witness :
  let df := [Kernel "A" "A" 40; Kernel "B" "B" 20; Kernel "C" "C" 40]%Q in
  let items := [individual "B" None None; individual "C" None None;
                individual "A" None None] in
  let slots := [("C", 40, ColorStr "#F28E2B"); ("A", 40, ColorStr "#E15759");
                ("B", 20, ColorStr "#4E79A7")]%string%Q in
  create_academic_bar_chart df items = Ok (Drawn slots) /\
  StronglySorted before slots /\
  with_value 40 slots = [("C", 40, ColorStr "#F28E2B"); ("A", 40, ColorStr "#E15759")]%string%Q.
Proof.
  intros df items slots.
  assert (H : create_academic_bar_chart df items = Ok (Drawn slots)) by reflexivity.
  destruct (bar_chart_sorted df items slots H) as (? & ? & ? & ? & _ & _ & _ & Hs & _ & _).
  split; [exact H|]. split; [exact Hs | reflexivity].
Defined.

(** C4 as stated fails for the pie chart: with the items for B (40) and
    then A (60) it draws B before A. *)
Lemma pie_chart_not_sorted_counterexample :
  let df := [Kernel "A" "A" 60; Kernel "B" "B" 40]%Q in
  let items := [individual "B" None None; individual "A" None None] in
  create_academic_pie_chart df items =
    Ok (Drawn [("B", 40, ColorStr "#4E79A7"); ("A", 60, ColorStr "#F28E2B")]%string%Q) /\
  ~ StronglySorted before
      [("B", 40, ColorStr "#4E79A7"); ("A", 60, ColorStr "#F28E2B")]%string%Q /\
  create_academic_bar_chart df items =
    Ok (Drawn [("A", 60, ColorStr "#F28E2B"); ("B", 40, ColorStr "#4E79A7")]%string%Q).
Proof.
  cbv zeta. split; [reflexivity|]. split; [|reflexivity].
  intros H. inversion H as [|a l _ Hall]; subst.
  inversion Hall as [|b l' Hb _]; subst.
  unfold before in Hb. vm_compute in Hb. apply Hb. reflexivity.
Qed.

(** * Further properties *)

(** ** When normalisation succeeds *)

Lemma far_from_100 (x : Q) : (x == 0)%Q -> Qltb (1 # 100) (Qabs (x - 100)) = true.
Proof.
  intros Hz. apply Qltb_true.
  rewrite (Qabs_wd _ (-100)%Q) by (rewrite Hz; ring). reflexivity.
Qed.

Lemma normalize_kept (szs : list Q) :
  (Qabs (sum szs - 100) <= 1 # 100)%Q -> normalize szs = Ok szs.
Proof.
  intros H. apply Qltb_false in H. unfold normalize. rewrite H. reflexivity.
Qed.

(** The outcomes of the normalisation block in the embedding, by the sum
    of the values. *)
Lemma normalize_outcome_cases (szs : list Q) :
  if Qeq_bool (sum szs) 0 then
    normalize szs =
      Raise (match szs with [] => ValueError_max_empty | _ :: _ => ZeroDivisionError end)
  else exists out, normalize szs = Ok out /\ length out = length szs.
Proof.
  destruct (Qeq_bool (sum szs) 0) eqn:E.
  - apply Qeq_bool_iff in E. destruct szs as [|x szs]; [reflexivity|].
    unfold normalize. rewrite (far_from_100 _ E), (mapM_div_zero _ _ _ E). reflexivity.
  - assert (Hnz : ~ (sum szs == 0)%Q).
    { intros H. apply Qeq_bool_iff in H. congruence. }
    destruct (normalize_ok szs Hnz) as (out & H & Hl & _). eauto.
Qed.


Lemma normalize_Ok_nonzero (szs out : list Q) :
  normalize szs = Ok out -> ~ (sum szs == 0)%Q.
Proof.
  intros H Hz. pose proof (normalize_outcome_cases szs) as Ho.
  apply Qeq_bool_iff in Hz. rewrite Hz, H in Ho. discriminate.
Qed.

Lemma tenths_near_100 (z : Z) :
  (Qabs (inject_Z z / 10 - 100) <= 5 # 100)%Q -> z = 1000%Z.
Proof.
  intros H. apply Qabs_Qle_condition in H as [H1 H2].
  remember (inject_Z z) as q eqn:Eq.
  assert (E : (q / 10 == q * (1 # 10))%Q) by field.
  rewrite E in H1, H2.
  assert (L : (999 < q)%Q) by lra.
  assert (U : (q < 1001)%Q) by lra.
  subst q. change 999%Q with (inject_Z 999) in L. change 1001%Q with (inject_Z 1001) in U.
  rewrite <- Zlt_Qlt in L, U. lia.
Qed.

(** A normalised list sums to 100 within 0.01. *)
Lemma normalize_sum_close (szs out : list Q) :
  normalize szs = Ok out -> (Qabs (sum out - 100) <= 1 # 100)%Q.
Proof.
  intros H. pose proof (normalize_Ok_nonzero _ _ H) as Hnz.
  destruct (normalize_cases szs Hnz)
    as [[H1 E] | [(H1 & H2 & E) | (H1 & H2 & i & out' & E & Hc & Hs)]];
    rewrite E in H; injection H as <-.
  - exact H1.
  - destruct (sum_round1_tenths (map (fun size => size * 100 / sum szs)%Q szs)) as [z Hz].
    fold (rescaled szs) in Hz.
    assert (z = 1000%Z) as -> by (apply tenths_near_100; rewrite <- Hz; exact H2).
    rewrite (Qabs_wd _ 0%Q) by (rewrite Hz; reflexivity). discriminate.
  - rewrite (Qabs_wd _ 0%Q) by (rewrite Hs; ring). discriminate.
Qed.

(** X2.  When the values do not sum to zero, normalisation returns a list
    whose sum is within 0.01 of 100, and normalising that list again
    returns it unchanged. *)
Theorem normalize_idempotent (szs : list Q) :
  ~ (sum szs == 0)%Q ->
  exists out,
    normalize szs = Ok out /\
    (Qabs (sum out - 100) <= 1 # 100)%Q /\
    normalize out = Ok out.
Proof.
  intros Hnz. destruct (normalize_ok szs Hnz) as (out & H & _).
  pose proof (normalize_sum_close szs out H) as Hc.
  exists out. split; [exact H|]. split; [exact Hc|]. apply normalize_kept, Hc.
Qed.

Lemma normalize_idempotent_witness :
  exists out,
    normalize [10; 10; 10]%Q = Ok out /\
    (Qabs (sum out - 100) <= 1 # 100)%Q /\
    normalize out = Ok out.
Proof.
  apply (normalize_idempotent [10; 10; 10]%Q). vm_compute. discriminate.
Defined.

(** ** Accuracy of the rounding *)

Lemma rint_error (y : Q) : (Qabs (inject_Z (rint y) - y) <= 1 # 2)%Q.
Proof.
  pose proof (Qfloor_le y) as Hlo. pose proof (Qlt_floor y) as Hhi.
  rewrite inject_Z_plus in Hhi. change (inject_Z 1) with 1%Q in Hhi.
  apply Qabs_Qle_condition. unfold rint.
  destruct (y - inject_Z (Qfloor y) ?= 1 # 2)%Q eqn:E.
  - apply Qeq_alt in E.
    destruct (Z.even (Qfloor y)); rewrite ?inject_Z_plus; change (inject_Z 1) with 1%Q; lra.
  - apply Qlt_alt in E. lra.
  - apply Qgt_alt in E. rewrite inject_Z_plus. change (inject_Z 1) with 1%Q. lra.
Qed.

Lemma round1_error (x : Q) : (Qabs (round1 x - x) <= 1 # 20)%Q.
Proof.
  pose proof (rint_error (x * 10)) as H. apply Qabs_Qle_condition in H as [H1 H2].
  apply Qabs_Qle_condition. unfold round1.
  assert (E : (inject_Z (rint (x * 10)) / 10 - x ==
               (inject_Z (rint (x * 10)) - x * 10) * (1 # 10))%Q) by field.
  rewrite E. split; lra.
Qed.

(** X3.  When the values do not sum to zero and are rescaled (their total
    is further than 0.01 from 100), the returned values are whole tenths,
    and all of them, except possibly the one at a position [i] of a largest
    original value, are within 0.05 of their exact share
    [value * 100 / total]. *)
Theorem rescaled_values_accurate (szs : list Q) :
  ~ (sum szs == 0)%Q ->
  (1 # 100 < Qabs (sum szs - 100))%Q ->
  exists out,
    normalize szs = Ok out /\
    (forall j o, out !! j = Some o -> exists z : Z, o = (inject_Z z / 10)%Q) /\
    exists i m,
      szs !! i = Some m /\
      (forall j x, szs !! j = Some x -> (x <= m)%Q) /\
      forall j x o, j <> i -> szs !! j = Some x -> out !! j = Some o ->
        (Qabs (o - x * 100 / sum szs) <= 1 # 20)%Q.
Proof.
  intros Hnz Hfar. destruct (normalize_ok szs Hnz) as (out & H & _).
  exists out. split; [exact H|].
  assert (Hne : szs <> []) by (intros ->; apply Hnz; reflexivity).
  assert (Hresc : forall j x o, szs !! j = Some x -> rescaled szs !! j = Some o ->
            o = round1 (x * 100 / sum szs)).
  { intros j x o Hx Ho. unfold rescaled in Ho.
    change (map ?f ?l) with (f <$> l) in Ho.
    rewrite !list_lookup_fmap, Hx in Ho. simpl in Ho. congruence. }
  assert (Htenth : forall j o, rescaled szs !! j = Some o ->
            exists z : Z, o = (inject_Z z / 10)%Q).
  { intros j o Ho. unfold rescaled in Ho.
    apply list_lookup_fmap_Some_1 in Ho as (v & -> & _). eexists. reflexivity. }
  destruct (normalize_cases szs Hnz)
    as [[H1 _] | [(_ & _ & E) | (_ & _ & i & out' & E & Hc & _)]].
  - exfalso. apply (Qlt_not_le _ _ Hfar), H1.
  - rewrite E in H. injection H as <-. split; [exact Htenth|].
    destruct (index_max szs Hne) as (m & i & y & _ & _ & Hy & Hall & _).
    exists i, y. repeat split; auto.
    intros j x o _ Hx Ho. rewrite (Hresc j x o Hx Ho). apply round1_error.
  - rewrite E in H. injection H as <-.
    destruct Hc as (m & r & Hm & Hall & _ & Hr & ->). split.
    + intros j o Ho. destruct (decide (j = i)) as [->|Hne'].
      * rewrite list_lookup_insert_eq in Ho by (eapply lookup_lt_Some, Hr).
        injection Ho as <-. eexists. reflexivity.
      * rewrite list_lookup_insert_ne in Ho by congruence. eauto.
    + exists i, m. repeat split; auto.
      intros j x o Hj Hx Ho. rewrite list_lookup_insert_ne in Ho by congruence.
      rewrite (Hresc j x o Hx Ho). apply round1_error.
Qed.

Lemma rescaled_values_accurate_witness :
  exists out,
    normalize [50; 30; 30]%Q = Ok out /\
    (forall j o, out !! j = Some o -> exists z : Z, o = (inject_Z z / 10)%Q) /\
    exists i m,
      [50; 30; 30]%Q !! i = Some m /\
      (forall j x, [50; 30; 30]%Q !! j = Some x -> (x <= m)%Q) /\
      forall j x o, j <> i -> [50; 30; 30]%Q !! j = Some x -> out !! j = Some o ->
        (Qabs (o - x * 100 / sum [50; 30; 30]) <= 1 # 20)%Q.
Proof.
  apply (rescaled_values_accurate [50; 30; 30]%Q).
  - vm_compute. discriminate.
  - vm_compute. reflexivity.
Defined.

(** ** What [prepare_display_data] returns *)

Lemma length_labels_process_item (df : list kernel) (st : locals) (item : display_item) :
  length (labels (process_item df st item)) <= S (length (labels st)).
Proof.
  destruct item as [kn l c | kns l c | b l c | ]; simpl; auto.
  - destruct (lookup_kernel df kn); simpl; rewrite ?length_app; simpl; lia.
  - rewrite merge_loop_spec.
    destruct (found df kns); simpl; rewrite ?length_app; simpl; lia.
  - destruct b; [destruct (decide _)|]; simpl; rewrite ?length_app; simpl; lia.
Qed.

Lemma length_labels_resolve_from (df : list kernel) (items : list display_item)
    (st : locals) :
  length (labels (resolve_from df st items)) <= length (labels st) + length items.
Proof.
  revert st. induction items as [|item items IH]; intros st; simpl; [lia|].
  unfold resolve_from in *. simpl.
  pose proof (IH (process_item df st item)).
  pose proof (length_labels_process_item df st item). lia.
Qed.

Lemma fill_colors_all_Some (base_colors : list color) (cs out : list (option color))
    (i : nat) :
  fill_colors base_colors i cs = Ok out ->
  exists fc, out = map Some fc /\ length fc = length cs.
Proof.
  revert i out. induction cs as [|c cs IH]; intros i out H; simpl in H.
  - injection H as <-. exists []. split; reflexivity.
  - destruct (match c with Some x => Ok x | None => getitem base_colors i end) as [c'|e];
      cbn [mbind result_bind] in H; [|discriminate].
    destruct (fill_colors base_colors (S i) cs) as [rest|e] eqn:E;
      cbn [mbind result_bind] in H; [|discriminate].
    injection H as <-. destruct (IH _ _ E) as (fc & -> & Hl).
    exists (c' :: fc). split; [reflexivity | simpl; congruence].
Qed.

(** The shape of every result of [prepare_display_data]: no colour is
    missing, the three lists have the same length, and there are at most 9
    slots without directives and between 1 and as many slots as directives
    with them. *)
Lemma prepared_shape (df : list kernel) (display_items : list display_item)
    (lbls : list string) (szs : list Q) (cs : list (option color)) :
  prepare_display_data df display_items = Ok (lbls, szs, cs) ->
  (exists fc, cs = map Some fc /\ length fc = length lbls) /\
  length szs = length lbls /\
  match display_items with
  | [] => length lbls = (if decide (8 < length df) then 9 else length df)
  | _ :: _ => 1 <= length lbls <= length display_items
  end.
Proof.
  destruct display_items as [|item items]; intros H.
  - simpl in H.
    assert (Ht : length (take 8 df) = Nat.min 8 (length df)) by apply length_take.
    destruct (decide (8 < length df)); injection H as <- <- <-.
    + rewrite !length_app, !length_map. simpl.
      split; [eexists; split; [reflexivity|]|];
        rewrite ?length_get_academic_colors, ?length_app, ?length_map; simpl; lia.
    + rewrite !length_map.
      split; [eexists; split; [reflexivity|]|];
        rewrite ?length_get_academic_colors, ?length_map; lia.
  - unfold prepare_display_data in H.
    destruct (aligned_resolve df (item :: items)) as [Hs Hc].
    assert (Hb : length (labels (resolve df (item :: items))) <= length (item :: items))
      by apply (length_labels_resolve_from df (item :: items) init).
    destruct (fill_colors _ 0 _) as [cs'|e] eqn:Ef; cbn [mbind result_bind] in H;
      [|discriminate].
    destruct (normalize _) as [out|e] eqn:En; cbn [mbind result_bind] in H;
      [|discriminate].
    injection H as <- <- <-.
    destruct (fill_colors_all_Some _ _ _ _ Ef) as (fc & -> & Hl).
    pose proof (normalize_Ok_nonzero _ _ En) as Hnz.
    pose proof (normalize_outcome_cases (sizes (resolve df (item :: items)))) as Ho.
    destruct (Qeq_bool _ 0) eqn:Eq; [apply Qeq_bool_iff in Eq; tauto|].
    destruct Ho as (out' & Ho & Hlen). rewrite En in Ho. injection Ho as <-.
    split; [exists fc; split; [reflexivity | lia]|]. split; [lia|].
    destruct (sizes (resolve df (item :: items))) as [|? ?] eqn:Es.
    + exfalso. apply Hnz. reflexivity.
    + simpl in Hs. lia.
Qed.

(** X5.  Whenever [prepare_display_data] returns, its three lists have the same
    length: the number of rows up to 8, and 9 beyond, without directives;
    at least 1 and at most the number of directives with them. *)
Theorem prepared_lists_aligned (df : list kernel) (display_items : list display_item)
    (lbls : list string) (szs : list Q) (cs : list (option color)) :
  prepare_display_data df display_items = Ok (lbls, szs, cs) ->
  length szs = length lbls /\ length cs = length lbls /\
  match display_items with
  | [] => length lbls = (if decide (8 < length df) then 9 else length df)
  | _ :: _ => 1 <= length lbls <= length display_items
  end.
Proof.
  intros H. destruct (prepared_shape _ _ _ _ _ H) as ((fc & -> & Hl) & Hs & Hn).
  rewrite length_map. auto.
Qed.

Lemma prepared_lists_aligned_witness :
  exists lbls szs cs,
    prepare_display_data [Kernel "A" "A" 50; Kernel "B" "B" 30; Kernel "C" "C" 20]%Q
      [individual "A" None None; individual "Z" None None; others true None None]
      = Ok (lbls, szs, cs) /\
    length szs = length lbls /\ length cs = length lbls /\ 1 <= length lbls <= 3.
Proof.
  do 3 eexists. split; [reflexivity|].
  eapply (prepared_lists_aligned
            [Kernel "A" "A" 50; Kernel "B" "B" 30; Kernel "C" "C" 20]%Q
            [individual "A" None None; individual "Z" None None; others true None None]).
  reflexivity.
Defined.

(** ** What the chart functions draw *)

Lemma final_colors_all_Some (n : nat) (fc : list color) :
  fc <> [] -> final_colors n (map Some fc) = Ok fc.
Proof.
  intros Hne. unfold final_colors.
  destruct fc as [|c fc]; [congruence|]. cbn [map].
  assert (E : forallb (fun c : option color => bool_decide (is_Some c))
                (Some c :: map Some fc) = true).
  { apply forallb_forall. intros x Hx. apply bool_decide_eq_true.
    change (Some c :: map Some fc) with (map Some (c :: fc)) in Hx.
    apply in_map_iff in Hx as (y & <- & _). eauto. }
  rewrite E. f_equal. change (Some c :: map Some fc) with (Some <$> (c :: fc)).
  clear. induction (c :: fc) as [|x l IH]; [reflexivity|].
  cbn. f_equal. exact IH.
Qed.

Lemma length_zip3 (ls : list string) (ss : list Q) (cs : list color) :
  length ss = length ls -> length cs = length ls -> length (zip3 ls ss cs) = length ls.
Proof.
  revert ss cs. induction ls as [|l ls IH]; intros [|s ss] [|c cs] H1 H2;
    simpl in *; try lia.
  rewrite IH; lia.
Qed.

Lemma zip3_components (ls : list string) (ss : list Q) (cs : list color) :
  length ss = length ls -> length cs = length ls ->
  map (fun s : slot => fst (fst s)) (zip3 ls ss cs) = ls /\
  map value (zip3 ls ss cs) = ss /\
  map (fun s : slot => snd s) (zip3 ls ss cs) = cs.
Proof.
  revert ss cs. induction ls as [|l ls IH]; intros [|s ss] [|c cs] H1 H2;
    simpl in *; try lia; auto.
  destruct (IH ss cs) as (E1 & E2 & E3); [lia | lia |].
  unfold value in *. simpl. rewrite E1, E2, E3. auto.
Qed.

Lemma charts_draw_prepared_slots (df : list kernel) (display_items : list display_item) :
  df <> [] ->
  match prepare_display_data df display_items with
  | Raise e =>
      create_academic_bar_chart df display_items = Raise e /\
      create_academic_pie_chart df display_items = Raise e
  | Ok (lbls, szs, cs) =>
      exists slots,
        create_academic_pie_chart df display_items = Ok (Drawn slots) /\
        create_academic_bar_chart df display_items = Ok (Drawn (sort_desc slots)) /\
        map (fun s : slot => fst (fst s)) slots = lbls /\
        map value slots = szs /\
        map (fun s : slot => Some (snd s)) slots = cs
  end.
Proof.
  intros Hdf. unfold create_academic_bar_chart, create_academic_pie_chart.
  destruct (prepare_display_data df display_items) as [[[lbls szs] cs]|e] eqn:E;
    [|split; reflexivity].
  destruct (prepared_shape _ _ _ _ _ E) as ((fc & -> & Hl) & Hs & Hn).
  assert (Hne : lbls <> []).
  { intros ->. destruct display_items; simpl in Hn; [|lia].
    destruct (decide _); [discriminate|]. destruct df; [congruence | discriminate]. }
  assert (Hfc : fc <> []) by (intros ->; destruct lbls; [congruence | discriminate]).
  cbn [mbind result_bind]. destruct lbls as [|lb lbls]; [congruence|].
  rewrite (final_colors_all_Some _ _ Hfc). cbn [mbind result_bind].
  exists (zip3 (lb :: lbls) szs fc).
  destruct (zip3_components (lb :: lbls) szs fc Hs Hl) as (E1 & E2 & E3).
  repeat split; auto.
  rewrite <- E3 at 2. rewrite map_map. reflexivity.
Qed.

(** X6.  For a frame with at least one row, whenever
    [prepare_display_data] returns its three lists, neither chart function
    takes the return without a chart: the pie chart function hands to
    matplotlib exactly the labels, values and colours returned, one slot
    for each label, and the bar chart function hands over the same slots
    sorted. *)
Theorem charts_draw_prepared (df : list kernel) (display_items : list display_item)
    (lbls : list string) (szs : list Q) (cs : list (option color)) :
  df <> [] ->
  prepare_display_data df display_items = Ok (lbls, szs, cs) ->
  exists slots,
    create_academic_pie_chart df display_items = Ok (Drawn slots) /\
    create_academic_bar_chart df display_items = Ok (Drawn (sort_desc slots)) /\
    length slots = length lbls /\
    map (fun s : slot => fst (fst s)) slots = lbls /\
    map value slots = szs /\
    map (fun s : slot => Some (snd s)) slots = cs.
Proof.
  intros Hdf Hp. pose proof (charts_draw_prepared_slots df display_items Hdf) as H.
  rewrite Hp in H. destruct H as (slots & H1 & H2 & H3 & H4 & H5).
  exists slots. repeat split; auto.
  rewrite <- H3, length_map. reflexivity.
Qed.

Lemma charts_draw_prepared_witness :
  let df := [Kernel "A" "A" 60; Kernel "B" "B" 40]%Q in
  let items := [individual "B" None (Some (ColorStr "red")); individual "A" None None] in
  exists slots,
    create_academic_pie_chart df items = Ok (Drawn slots) /\
    create_academic_bar_chart df items = Ok (Drawn (sort_desc slots)) /\
    map value slots = [40; 60]%Q /\
    map (fun s : slot => Some (snd s)) slots =
      [Some (ColorStr "red"); Some (ColorStr "#F28E2B")].
Proof.
  intros df items.
  destruct (charts_draw_prepared df items ["B"; "A"]%string [40; 60]%Q
              [Some (ColorStr "red"); Some (ColorStr "#F28E2B")])
    as (slots & H1 & H2 & _ & _ & H4 & H5); [discriminate | reflexivity |].
  exists slots. auto.
Defined.

(** ** When the bar chart keeps the order of emission *)

Lemma sort_desc_id (l : list slot) : StronglySorted before l -> sort_desc l = l.
Proof.
  induction 1 as [|x l Hl IH Hx]; [reflexivity|].
  cbn [sort_desc fold_right]. fold (sort_desc l). rewrite IH.
  destruct l as [|y l]; [reflexivity|]. cbn [insert_desc].
  inversion Hx as [|? ? Hy _]; subst. unfold before in Hy.
  apply Qle_bool_iff in Hy. rewrite Hy. reflexivity.
Qed.

(** X7.  When the slots are emitted largest value first, the bar chart draws
    them in that same order: its sort changes nothing. *)
Theorem bar_keeps_sorted_emission (df : list kernel) (display_items : list display_item)
    (slots : list slot) :
  create_academic_pie_chart df display_items = Ok (Drawn slots) ->
  StronglySorted before slots ->
  create_academic_bar_chart df display_items = Ok (Drawn slots).
Proof.
  unfold create_academic_bar_chart, create_academic_pie_chart.
  destruct (prepare_display_data df display_items) as [[[lbls szs] cs]|e];
    cbn [mbind result_bind]; [|discriminate].
  destruct lbls as [|lb lbls]; [discriminate|].
  destruct (final_colors _ cs) as [fc|e]; cbn [mbind result_bind]; [|discriminate].
  intros H Hs. injection H as <-. do 2 f_equal. apply sort_desc_id, Hs.
Qed.

Lemma bar_keeps_sorted_emission_witness :
  create_academic_bar_chart [Kernel "A" "A" 60; Kernel "B" "B" 40]%Q
    [individual "A" None None; individual "B" None None] =
  Ok (Drawn [("A", 60, ColorStr "#4E79A7"); ("B", 40, ColorStr "#F28E2B")]%string%Q).
Proof.
  apply bar_keeps_sorted_emission; [reflexivity|].
  repeat constructor; unfold before; simpl; discriminate.
Defined.

Lemma descending_StronglySorted (df : list kernel) :
  descending df <->
  StronglySorted (fun a b => percentage b <= percentage a)%Q df.
Proof.
  split.
  - induction df as [|x l IH]; intros Hd; constructor.
    + apply IH. intros i j a b Hij Ha Hb. apply (Hd (S i) (S j)); auto; lia.
    + apply Forall_lookup. intros i b Hb. apply (Hd 0 (S i)); auto; lia.
  - induction 1 as [|x l Hl IH Hx]; intros i j a b Hij Ha Hb.
    + inversion Ha.
    + destruct j as [|j]; [lia|]. simpl in Hb. destruct i as [|i]; simpl in Ha.
      * injection Ha as <-. rewrite Forall_forall in Hx.
        apply Hx. eapply list_elem_of_lookup_2, Hb.
      * apply (IH i j); auto; lia.
Qed.

Lemma StronglySorted_before_values (slots : list slot) :
  StronglySorted (fun a b => b <= a)%Q (map value slots) -> StronglySorted before slots.
Proof.
  induction slots as [|s slots IH]; intros H; [constructor|].
  simpl in H. inversion H as [|? ? Hs Hall]; subst.
  constructor; [apply IH, Hs|].
  apply Forall_forall. intros y Hy. rewrite Forall_forall in Hall.
  apply Hall. change (value y ∈ value <$> slots). apply list_elem_of_fmap_2, Hy.
Qed.

Lemma StronglySorted_percentages (df : list kernel) :
  StronglySorted (fun a b => percentage b <= percentage a)%Q df ->
  StronglySorted (fun a b => b <= a)%Q (map percentage df).
Proof.
  induction 1 as [|x l Hl IH Hx]; [constructor|].
  simpl. constructor; [exact IH|].
  apply Forall_forall. intros y Hy. rewrite Forall_forall in Hx.
  change (y ∈ percentage <$> l) in Hy.
  apply list_elem_of_fmap_1 in Hy as (r & -> & Hr). apply Hx, Hr.
Qed.

(** X8.  Without directives and with at most 8 rows in a sorted frame, the pie
    chart and the bar chart draw the same sequence: one slot per row, in
    the order of the frame, with the row's display name and its raw
    percentage. *)
Theorem default_charts_follow_frame (df : list kernel) :
  descending df -> df <> [] -> length df <= 8 ->
  exists slots,
    create_academic_pie_chart df [] = Ok (Drawn slots) /\
    create_academic_bar_chart df [] = Ok (Drawn slots) /\
    map (fun s : slot => fst (fst s)) slots = map display_name df /\
    map value slots = map percentage df.
Proof.
  intros Hd Hne Hlen.
  pose proof (charts_draw_prepared_slots df [] Hne) as H.
  assert (E : prepare_display_data df [] =
              Ok (map display_name df, map percentage df,
                  map Some (get_academic_colors (length (map display_name df))))).
  { simpl. rewrite decide_False by lia. rewrite take_ge by lia. reflexivity. }
  rewrite E in H. destruct H as (slots & Hpie & Hbar & Hl & Hv & _).
  exists slots. repeat split; auto.
  rewrite Hbar, sort_desc_id; [reflexivity|].
  apply StronglySorted_before_values. rewrite Hv.
  apply StronglySorted_percentages, descending_StronglySorted, Hd.
Qed.

Lemma default_charts_follow_frame_witness :
  exists slots,
    create_academic_pie_chart [Kernel "A" "A" 60; Kernel "B" "B" 25; Kernel "C" "C" 15]%Q []
      = Ok (Drawn slots) /\
    create_academic_bar_chart [Kernel "A" "A" 60; Kernel "B" "B" 25; Kernel "C" "C" 15]%Q []
      = Ok (Drawn slots) /\
    map value slots = [60; 25; 15]%Q.
Proof.
  destruct (default_charts_follow_frame
              [Kernel "A" "A" 60; Kernel "B" "B" 25; Kernel "C" "C" 15]%Q)
    as (slots & H1 & H2 & _ & H4).
  - apply descending_StronglySorted. repeat constructor; simpl; discriminate.
  - discriminate.
  - simpl. lia.
  - exists slots. auto.
Defined.

(** ** The frame of a constructed analyser *)

Lemma insert_row_perm (x : kernel) (l : list kernel) : insert_row x l ≡ₚ x :: l.
Proof.
  induction l as [|y l IH]; simpl; [reflexivity|].
  destruct (Qle_bool (percentage y) (percentage x)); [reflexivity|].
  rewrite IH. apply perm_swap.
Qed.

Lemma insert_row_sorted (x : kernel) (l : list kernel) :
  StronglySorted (fun a b => percentage b <= percentage a)%Q l ->
  StronglySorted (fun a b => percentage b <= percentage a)%Q (insert_row x l).
Proof.
  induction 1 as [|y l Hl IH Hy]; simpl.
  - repeat constructor.
  - destruct (Qle_bool (percentage y) (percentage x)) eqn:E.
    + apply Qle_bool_iff in E. constructor; [constructor; assumption|].
      constructor; [exact E|].
      eapply Forall_impl; [exact Hy|]. intros z Hz. simpl in Hz. lra.
    + constructor; [exact IH|].
      rewrite insert_row_perm. constructor; [|exact Hy].
      apply Qlt_le_weak, Qnot_le_lt. intros H.
      apply Qle_bool_iff in H. congruence.
Qed.

Lemma sort_rows_sorts : sorts sort_rows.
Proof.
  intros l. split.
  - induction l as [|x l IH]; simpl; [reflexivity|].
    rewrite insert_row_perm, IH. reflexivity.
  - apply descending_StronglySorted.
    induction l as [|x l IH]; simpl; [constructor | apply insert_row_sorted, IH].
Qed.

Section Frame.

Variable sort_values : list kernel -> list kernel.
Hypothesis sort_values_sorts : sorts sort_values.

Lemma create_dataframe_shape (mapping : gmap string string) (data : profiling_data) :
  match create_dataframe sort_values mapping data with
  | inl MissingKernelStatistics => kernel_statistics data = None
  | inl NoKernelStatistics => kernel_statistics data = Some []
  | inr df =>
      exists stats,
        kernel_statistics data = Some stats /\
        df <> [] /\ length df = length stats /\
        descending df /\
        df ≡ₚ map (fun s => Kernel (stat_name s) (map_name mapping (stat_name s))
                             (stat_percentage s)) stats /\
        forall r, r ∈ df ->
          display_name r = default (name r) (mapping !! name r)
  end.
Proof.
  unfold create_dataframe.
  destruct (kernel_statistics data) as [[|s stats]|]; [reflexivity| |reflexivity].
  destruct (sort_values_sorts
              (map (fun s => Kernel (stat_name s) (map_name mapping (stat_name s))
                               (stat_percentage s)) (s :: stats))) as [Hp Hd].
  exists (s :: stats). split; [reflexivity|].
  split.
  { intros E. rewrite E in Hp. apply Permutation_nil_l in Hp. discriminate. }
  split; [rewrite Hp, length_map; reflexivity|].
  split; [exact Hd|]. split; [exact Hp|].
  intros r Hr. rewrite Hp in Hr.
  apply list_elem_of_In, in_map_iff in Hr as (s' & <- & _). reflexivity.
Qed.

(** X10.  [create_dataframe] fails exactly when the key [kernel_statistics] is
    missing or its list is empty, with a different error for each.
    Otherwise the frame is not empty, is sorted by percentage, largest
    first, and holds exactly the given statistics, each with the display
    name that the mapping gives to its name (its own name when the mapping
    has none). *)
Theorem create_dataframe_frame (mapping : gmap string string) (data : profiling_data) :
  match create_dataframe sort_values mapping data with
  | inl MissingKernelStatistics => kernel_statistics data = None
  | inl NoKernelStatistics => kernel_statistics data = Some []
  | inr df =>
      exists stats,
        kernel_statistics data = Some stats /\
        df <> [] /\ length df = length stats /\
        descending df /\
        df ≡ₚ map (fun s => Kernel (stat_name s) (map_name mapping (stat_name s))
                             (stat_percentage s)) stats /\
        forall r, r ∈ df ->
          display_name r = default (name r) (mapping !! name r)
  end.
Proof. exact (create_dataframe_shape mapping data). Qed.

End Frame.

Lemma create_dataframe_frame_witness :
  exists df,
    create_dataframe sort_rows get_default_kernel_mapping
      (ProfilingData (Some [KernelStat "CollideSDF" 30; KernelStat "Custom" 70]%Q) None)
      = inr df /\
    df <> [] /\ length df = 2 /\ descending df.
Proof.
  pose proof (create_dataframe_frame sort_rows sort_rows_sorts get_default_kernel_mapping
                (ProfilingData (Some [KernelStat "CollideSDF" 30; KernelStat "Custom" 70]%Q)
                   None)) as H.
  destruct (create_dataframe _ _ _) as [e|df] eqn:E; [destruct e; discriminate|].
  destruct H as (stats & Hs & Hne & Hl & Hd & _).
  injection Hs as <-. exists df. auto.
Defined.

(** ** Directives that account for every kernel *)

Lemma sum_Permutation (l l' : list Q) : l ≡ₚ l' -> (sum l == sum l')%Q.
Proof.
  induction 1 as [|x l l' _ IH|x y l|l l' l'' _ IH1 _ IH2].
  - reflexivity.
  - rewrite !sum_cons, IH. reflexivity.
  - rewrite !sum_cons. lra.
  - rewrite IH1. exact IH2.
Qed.

Lemma found_rows_nil (df : list kernel) (kernel_names : list string) :
  found df kernel_names = [] -> found_rows df kernel_names = [].
Proof.
  intros H. apply length_zero_iff_nil. rewrite <- length_found, H. reflexivity.
Qed.

Lemma sum_sizes_process_item (df : list kernel) (st : locals) (item : display_item) :
  no_remaining item ->
  (sum (sizes (process_item df st item)) ==
   sum (sizes st) + sum (map percentage (found_rows df (named item))))%Q.
Proof.
  destruct item as [kn l c | kns l c | b l c | ]; simpl; intros Hn.
  - unfold found_rows. simpl. destruct (lookup_kernel df kn) as [kd|]; simpl.
    + rewrite sum_app. reflexivity.
    + rewrite sum_nil. lra.
  - rewrite merge_loop_spec. destruct (found df kns) as [|n ns] eqn:E; simpl.
    + rewrite (found_rows_nil _ _ E). simpl. rewrite sum_nil. lra.
    + rewrite sum_app, sum_cons, sum_nil. unfold sum. lra.
  - destruct b; [contradiction|]. unfold found_rows. simpl. rewrite sum_nil. lra.
  - unfold found_rows. simpl. rewrite sum_nil. lra.
Qed.

Lemma sum_sizes_resolve_from (df : list kernel) (items : list display_item)
    (st : locals) :
  Forall no_remaining items ->
  (sum (sizes (resolve_from df st items)) ==
   sum (sizes st) + sum (map percentage (found_rows df (concat (map named items)))))%Q.
Proof.
  intros H. revert st. induction H as [|item items Hi _ IH]; intros st.
  - unfold found_rows. simpl. rewrite sum_nil. lra.
  - unfold resolve_from in *. cbn [fold_left map concat].
    rewrite IH, (sum_sizes_process_item _ _ _ Hi).
    unfold found_rows. rewrite omap_app, map_app, sum_app. lra.
Qed.

Lemma lookup_kernel_Some (df : list kernel) (n : string) (r : kernel) :
  lookup_kernel df n = Some r -> r ∈ df /\ name r = n.
Proof.
  unfold lookup_kernel. intros H. apply find_some in H as [H1 H2].
  apply String.eqb_eq in H2. split; [apply list_elem_of_In, H1 | exact H2].
Qed.

Lemma lookup_kernel_unique (df : list kernel) (r : kernel) :
  NoDup (map name df) -> r ∈ df -> lookup_kernel df (name r) = Some r.
Proof.
  intros Hnd Hr. destruct (lookup_kernel_is_Some df r Hr) as [r' Hr'].
  rewrite Hr'. f_equal.
  destruct (lookup_kernel_Some _ _ _ Hr') as [Hin Hname].
  clear Hr'. induction df as [|x df IH]; [inversion Hr|].
  simpl in Hnd. apply NoDup_cons in Hnd as [Hx Hnd].
  assert (Hmem : forall y, y ∈ df -> name y ∈ map name df).
  { intros y Hy. change (name y ∈ name <$> df). apply list_elem_of_fmap_2, Hy. }
  apply elem_of_cons in Hr as [->|Hr]; apply elem_of_cons in Hin as [->|Hin]; auto.
  - exfalso. apply Hx. rewrite <- Hname. auto.
  - exfalso. apply Hx. rewrite Hname. auto.
Qed.

Lemma found_rows_perm (df : list kernel) (kernel_names : list string) :
  NoDup (map name df) -> NoDup kernel_names ->
  found_rows df kernel_names ≡ₚ
    List.filter (fun r => bool_decide (name r ∈ kernel_names)) df.
Proof.
  intros Hdf Hns. apply NoDup_Permutation.
  - unfold found_rows. induction Hns as [|n ns Hn Hns IH]; [constructor|].
    simpl. destruct (lookup_kernel df n) as [r|] eqn:E; [|exact IH].
    apply NoDup_cons. split; [|exact IH].
    intros Hr. apply list_elem_of_omap in Hr as (n' & Hn' & E').
    apply lookup_kernel_Some in E as [_ <-]. apply lookup_kernel_Some in E' as [_ <-].
    contradiction.
  - apply NoDup_ListNoDup, List.NoDup_filter, NoDup_ListNoDup.
    eapply NoDup_fmap_1. exact Hdf.
  - intros r. unfold found_rows.
    rewrite list_elem_of_omap, list_elem_of_In, filter_In, bool_decide_eq_true,
      <- list_elem_of_In.
    split.
    + intros (n & Hn & E). apply lookup_kernel_Some in E as [Hr <-]. auto.
    + intros [Hr Hn]. exists (name r). split; [exact Hn|].
      apply lookup_kernel_unique; assumption.
Qed.

Lemma sum_filter_split (P : kernel -> bool) (df : list kernel) :
  (sum (map percentage (List.filter P df)) +
   sum (map percentage (List.filter (fun r => negb (P r)) df)) ==
   sum (map percentage df))%Q.
Proof.
  induction df as [|r df IH]; simpl; [rewrite sum_nil; lra|].
  destruct (P r); simpl; rewrite !sum_cons; lra.
Qed.

Lemma elem_of_concat_named (items : list display_item) (n : string) :
  n ∈ concat (map named items) <-> exists item, item ∈ items /\ n ∈ named item.
Proof.
  induction items as [|item items IH]; simpl.
  - split; [intros H; inversion H | intros (? & H & _); inversion H].
  - rewrite elem_of_app, IH. split.
    + intros [H|(it & H1 & H2)]; [exists item | exists it]; split; auto; constructor; auto.
    + intros (it & [->|H1]%elem_of_cons & H2); eauto.
Qed.

(** X9.  When the kernel names of the frame are pairwise different, the
    directives name no kernel twice and none of them is an others item
    that sums the remaining kernels, then with one such others item added
    at the end the slot values, before normalisation, add up to the sum of
    all percentages of the frame: every kernel is counted exactly once. *)
Theorem directives_with_others_cover_frame (df : list kernel)
    (display_items : list display_item) (l : option string) (c : option color) :
  NoDup (map name df) ->
  NoDup (concat (map named display_items)) ->
  Forall no_remaining display_items ->
  (sum (sizes (resolve df (display_items ++ [others true l c]))) ==
   sum (map percentage df))%Q.
Proof.
  intros Hdf Hnames Hitems.
  set (names := concat (map named display_items)) in *.
  unfold resolve, resolve_from. rewrite fold_left_app. cbn [fold_left].
  fold (resolve_from df init display_items). fold (resolve df display_items).
  assert (Hrem : not_used df (used_kernels (resolve df display_items)) =
                 List.filter (fun r => negb (bool_decide (name r ∈ names))) df).
  { unfold not_used. apply filter_ext_in. intros r Hr.
    rewrite <- bool_decide_not. apply bool_decide_ext.
    apply list_elem_of_In in Hr.
    unfold resolve. rewrite used_kernels_resolve_from. unfold names.
    rewrite elem_of_concat_named. simpl. rewrite elem_of_empty.
    pose proof (lookup_kernel_is_Some df r Hr). split.
    - intros Hn (item & H1 & H2). apply Hn. right. eauto.
    - intros Hn [[]|(item & H1 & H2 & _)]. apply Hn. eauto. }
  assert (Hsum : (sum (sizes (resolve df display_items)) ==
                  sum (map percentage
                         (List.filter (fun r => bool_decide (name r ∈ names)) df)))%Q).
  { unfold resolve. rewrite (sum_sizes_resolve_from _ _ _ Hitems). fold names.
    simpl. rewrite sum_nil.
    rewrite (sum_Permutation _ _
               (Permutation_map percentage (found_rows_perm df names Hdf Hnames))).
    lra. }
  rewrite <- (sum_filter_split (fun r => bool_decide (name r ∈ names)) df), <- Hsum,
    <- Hrem.
  simpl. destruct (decide _) as [Hlen|Hlen]; simpl.
  - rewrite sum_app, sum_cons, sum_nil. lra.
  - destruct (not_used df _) as [|? ?]; [|simpl in Hlen; lia].
    simpl. rewrite sum_nil. lra.
Qed.

Lemma directives_with_others_cover_frame_witness :
  (sum (sizes (resolve
                 [Kernel "A" "A" 50; Kernel "B" "B" 30; Kernel "C" "C" 15; Kernel "D" "D" 5]%Q
                 ([individual "B" None None; merged ["A"; "Z"]%string None None] ++
                  [others true None None]))) == 100)%Q.
Proof.
  rewrite (directives_with_others_cover_frame
             [Kernel "A" "A" 50; Kernel "B" "B" 30; Kernel "C" "C" 15; Kernel "D" "D" 5]%Q
             [individual "B" None None; merged ["A"; "Z"]%string None None] None None).
  - reflexivity.
  - apply (bool_decide_unpack _). vm_compute. exact I.
  - apply (bool_decide_unpack _). vm_compute. exact I.
  - repeat constructor.
Defined.

(** ** The kernel name mapping *)

(** X11.  An empty mapping given to the constructor is replaced by the default
    mapping, as a missing one is; any other mapping is used as it is.  A
    name without an entry is shown unchanged, and the default mapping
    applied to one of its own display names changes nothing. *)
Theorem kernel_name_mapping_fallback (m : gmap string string) (x : string) :
  m <> ∅ -> m !! x = None ->
  init_kernel_name_mapping (Some ∅) = init_kernel_name_mapping None /\
  init_kernel_name_mapping (Some m) = m /\
  map_name m x = x /\
  map_name get_default_kernel_mapping (map_name get_default_kernel_mapping x) =
    map_name get_default_kernel_mapping x.
Proof.
  intros Hm Hx. split; [reflexivity|]. split.
  { unfold init_kernel_name_mapping. rewrite decide_False by exact Hm. reflexivity. }
  split.
  { unfold map_name. rewrite Hx. reflexivity. }
  clear Hx.
  destruct (get_default_kernel_mapping !! x) as [y|] eqn:E.
  2:{ assert (Hx : map_name get_default_kernel_mapping x = x)
        by (unfold map_name; rewrite E; reflexivity).
      rewrite !Hx. reflexivity. }
  assert (Hx : map_name get_default_kernel_mapping x = y)
    by (unfold map_name; rewrite E; reflexivity).
  rewrite Hx. unfold get_default_kernel_mapping in E.
  apply elem_of_list_to_map_2 in E.
  repeat (apply elem_of_cons in E as [E|E]; [injection E as _ ->; vm_compute; reflexivity|]).
  inversion E.
Qed.

Lemma kernel_name_mapping_fallback_witness :
  init_kernel_name_mapping (Some ∅) = get_default_kernel_mapping /\
  init_kernel_name_mapping (Some {["CollideSDF" := "Collision"]}) =
    {["CollideSDF" := "Collision"]} /\
  map_name {["CollideSDF" := "Collision"]} "ApplyDeltas" = "ApplyDeltas"%string.
Proof.
  destruct (kernel_name_mapping_fallback {["CollideSDF" := "Collision"]} "ApplyDeltas")
    as (H1 & H2 & H3 & _).
  - apply insert_non_empty.
  - apply (bool_decide_unpack _). vm_compute. exact I.
  - split; [exact H1 | split; [exact H2 | exact H3]].
Defined.

(** ** The statistics *)

Lemma estimated_fps_zero (summary : gmap string Q) (t : Q) :
  summary !! "avg_frame_time_ms"%string = Some t -> (t == 0)%Q ->
  estimated_fps summary = Raise ZeroDivisionError.
Proof.
  intros Ht Hz. unfold estimated_fps, div. rewrite Ht. simpl.
  apply Qeq_bool_iff in Hz. rewrite Hz. reflexivity.
Qed.

Lemma estimated_fps_ok (data : profiling_data) (summary : gmap string Q) :
  ~ zero_frame_time data -> profiling_summary data = Some summary ->
  estimated_fps summary =
    Ok (1000 / default (1667 # 100) (summary !! "avg_frame_time_ms"%string))%Q.
Proof.
  intros Hnz Hs. unfold estimated_fps, div.
  destruct (summary !! "avg_frame_time_ms"%string) as [t|] eqn:Et; simpl; [|reflexivity].
  destruct (Qeq_bool t 0) eqn:E; [|reflexivity].
  exfalso. apply Hnz. exists summary, t. apply Qeq_bool_iff in E. auto.
Qed.

Lemma insert_reverse_perm (x : Q) (l : list Q) : insert_reverse x l ≡ₚ x :: l.
Proof.
  induction l as [|y l IH]; simpl; [reflexivity|].
  destruct (Qle_bool y x); [reflexivity|].
  rewrite IH. apply perm_swap.
Qed.

Lemma sorted_reverse_perm (l : list Q) : sorted_reverse l ≡ₚ l.
Proof.
  induction l as [|x l IH]; simpl; [reflexivity|].
  rewrite insert_reverse_perm, IH. reflexivity.
Qed.

Lemma sum_nonneg (l : list Q) : Forall (fun v => 0 <= v)%Q l -> (0 <= sum l)%Q.
Proof.
  induction 1 as [|x l Hx _ IH]; [apply Qle_refl|]. rewrite sum_cons. lra.
Qed.

Lemma sum_take_le (n : nat) (l : list Q) :
  Forall (fun v => 0 <= v)%Q l -> (sum (take n l) <= sum l)%Q.
Proof.
  intros H. revert n. induction H as [|x l Hx Hl IH]; intros [|n].
  - apply Qle_refl.
  - apply Qle_refl.
  - change (take 0 (x :: l)) with (@nil Q). rewrite sum_cons.
    pose proof (sum_nonneg l Hl). change (sum []) with 0%Q. lra.
  - change (take (S n) (x :: l)) with (x :: take n l).
    rewrite !sum_cons. specialize (IH n). lra.
Qed.

(** X12.  As long as the average frame time of the summary is not zero, the
    statistics box raises nothing.  There is a box exactly when the summary
    is present and not empty; it counts the labels, and its top-3 total is
    the total of the values when there are at most three and never more
    than their total when none is negative.  Without the key
    [avg_frame_time_ms] it shows the rate for 16.67 ms and a frame time
    of 0. *)
Theorem statistics_box_numbers (data : profiling_data) (lbls : list string)
    (szs : list Q) :
  ~ zero_frame_time data ->
  exists r, add_statistics_box data lbls szs = Ok r /\
    (r = None <-> default ∅ (profiling_summary data) = ∅) /\
    forall s, r = Some s ->
      components s = length lbls /\
      (length szs <= 3 -> (top3_total s == sum szs)%Q) /\
      (Forall (fun v => 0 <= v)%Q szs -> (top3_total s <= sum szs)%Q) /\
      (default ∅ (profiling_summary data) !! "avg_frame_time_ms"%string = None ->
         fps s = (1000 / (1667 # 100))%Q /\ frame_time s = 0%Q).
Proof.
  intros Hnz. unfold add_statistics_box.
  destruct (profiling_summary data) as [summary|] eqn:Es; simpl.
  2:{ rewrite decide_True by reflexivity. exists None. repeat split; auto; discriminate. }
  destruct (decide (summary = ∅)) as [He|He].
  { exists None. repeat split; auto; discriminate. }
  rewrite (estimated_fps_ok data summary Hnz Es). cbn [mbind result_bind].
  eexists. split; [reflexivity|]. split; [split; [discriminate | contradiction]|].
  intros s Hs. injection Hs as <-. simpl.
  split; [reflexivity|]. split; [|split].
  - intros Hl. rewrite take_ge.
    + apply sum_Permutation, sorted_reverse_perm.
    + rewrite (Permutation_length (sorted_reverse_perm szs)). exact Hl.
  - intros Hpos. rewrite <- (sum_Permutation _ _ (sorted_reverse_perm szs)).
    apply sum_take_le. rewrite (sorted_reverse_perm szs). exact Hpos.
  - intros Hk. rewrite Hk. split; reflexivity.
Qed.

Lemma statistics_box_numbers_witness :
  exists r,
    add_statistics_box (ProfilingData None (Some {["total_frames" := 1200%Q]}))
      ["A"; "B"]%string [60; 40]%Q = Ok r /\
    forall s, r = Some s ->
      components s = 2 /\ (top3_total s == 100)%Q /\
      fps s = (1000 / (1667 # 100))%Q /\ frame_time s = 0%Q.
Proof.
  destruct (statistics_box_numbers
              (ProfilingData None (Some {["total_frames" := 1200%Q]}))
              ["A"; "B"]%string [60; 40]%Q) as (r & Hr & _ & H).
  - intros (summary & t & Hs & Ht & _). injection Hs as <-.
    vm_compute in Ht. discriminate.
  - exists r. split; [exact Hr|]. intros s Hs.
    destruct (H s Hs) as (H1 & H2 & _ & H4).
    split; [exact H1|]. split; [apply H2; simpl; lia|]. apply H4. reflexivity.
Defined.

Lemma print_summary_ok (data : profiling_data) (df : list kernel) :
  descending df -> df <> [] -> ~ zero_frame_time data ->
  exists r top,
    print_summary data df = Ok r /\
    total_kernels r = length df /\
    df !! 0 = Some top /\
    top_kernel r = (display_name top, percentage top) /\
    (reported_fps r = None <-> default ∅ (profiling_summary data) = ∅) /\
    forall row, row ∈ df -> (percentage row <= snd (top_kernel r))%Q.
Proof.
  intros Hd Hne Hnz. destruct df as [|top df]; [congruence|].
  unfold print_summary, getitem. simpl.
  assert (Hmax : forall row, row ∈ top :: df -> (percentage row <= percentage top)%Q).
  { intros row Hr. apply list_elem_of_lookup in Hr as [[|i] Hi].
    - injection Hi as <-. apply Qle_refl.
    - apply (Hd 0 (S i)); auto; lia. }
  destruct (profiling_summary data) as [summary|] eqn:Es; simpl.
  2:{ rewrite decide_True by reflexivity. cbn [mbind result_bind].
      do 2 eexists. repeat split; auto. }
  destruct (decide (summary = ∅)) as [He|He]; cbn [mbind result_bind].
  { do 2 eexists. repeat split; auto. }
  rewrite (estimated_fps_ok data summary Hnz Es). cbn [mbind result_bind].
  do 2 eexists. repeat split; auto; simpl; try discriminate. contradiction.
Qed.

(** X13.  For a sorted frame with at least one row, [print_summary] raises
    nothing as long as the average frame time of the summary is not zero;
    it reports the number of rows, and the kernel it reports as the top
    kernel is the first row, whose percentage no row exceeds. *)
Theorem print_summary_top_kernel (data : profiling_data) (df : list kernel) :
  descending df -> df <> [] -> ~ zero_frame_time data ->
  exists r top,
    print_summary data df = Ok r /\
    total_kernels r = length df /\
    df !! 0 = Some top /\
    top_kernel r = (display_name top, percentage top) /\
    (reported_fps r = None <-> default ∅ (profiling_summary data) = ∅) /\
    forall row, row ∈ df -> (percentage row <= snd (top_kernel r))%Q.
Proof. exact (print_summary_ok data df). Qed.

Lemma print_summary_top_kernel_witness :
  exists r,
    print_summary (ProfilingData None (Some {["avg_frame_time_ms" := 20%Q]}))
      [Kernel "A" "A" 60; Kernel "B" "B" 40]%Q = Ok r /\
    top_kernel r = ("A"%string, 60%Q).
Proof.
  destruct (print_summary_top_kernel
              (ProfilingData None (Some {["avg_frame_time_ms" := 20%Q]}))
              [Kernel "A" "A" 60; Kernel "B" "B" 40]%Q) as (r & top & Hr & _ & Ht & Hk & _).
  - apply descending_StronglySorted. repeat constructor; simpl; discriminate.
  - discriminate.
  - intros (summary & t & Hs & Ht & Hz). injection Hs as <-.
    vm_compute in Ht. injection Ht as <-. vm_compute in Hz. discriminate.
  - exists r. split; [exact Hr|]. injection Ht as <-. exact Hk.
Defined.

(** X14.  The configuration example of [print_available_kernels] lists the first
    three rows; the line of the last row listed ends with a comma exactly
    when the frame has fewer than three rows. *)
Theorem configuration_example_comma (df : list kernel) :
  df <> [] ->
  length (configuration_example df) = Nat.min 3 (length df) /\
  exists row comma,
    last (take 3 df) = Some row /\
    last (configuration_example df) = Some (name row, display_name row, comma) /\
    (comma = true <-> length df < 3).
Proof.
  intros Hne. unfold configuration_example.
  assert (Hl : length (take 3 df) = Nat.min 3 (length df)) by apply length_take.
  assert (Hpos : 0 < length df) by (destruct df; [congruence | simpl; lia]).
  rewrite length_imap. split; [exact Hl|].
  rewrite !last_lookup, length_imap, list_lookup_imap.
  destruct (lookup_lt_is_Some_2 (take 3 df) (pred (length (take 3 df)))) as [row Hrow];
    [lia|].
  rewrite Hrow. simpl. do 2 eexists. split; [reflexivity|]. split; [reflexivity|].
  rewrite bool_decide_eq_true. lia.
Qed.

Lemma configuration_example_comma_witness :
  last (configuration_example [Kernel "A" "A" 60; Kernel "B" "B" 40]%Q) =
    Some ("B", "B", true)%string.
Proof.
  destruct (configuration_example_comma [Kernel "A" "A" 60; Kernel "B" "B" 40]%Q)
    as (_ & row & comma & Hr & Hl & Hc); [discriminate|].
  injection Hr as <-. rewrite Hl. f_equal. f_equal.
  apply Hc. simpl. lia.
Defined.

(** ** [main] *)

Lemma print_summary_zero_frame_time (data : profiling_data) (df : list kernel) :
  zero_frame_time data -> print_summary data df = Raise ZeroDivisionError.
Proof.
  intros (summary & t & Hs & Ht & Hz). unfold print_summary. rewrite Hs. simpl.
  rewrite decide_False by (intros ->; rewrite lookup_empty in Ht; discriminate).
  rewrite (estimated_fps_zero summary t Ht Hz). reflexivity.
Qed.

Section Main.

Variable sort_values : list kernel -> list kernel.
Hypothesis sort_values_sorts : sorts sort_values.
Variable which : chart_function.

(** X15.  A run without a configuration file on data with at least one kernel
    statistic, whose summary does not give a frame time of zero, ends with
    exit code 0 and a saved chart: one slot per statistic up to 8, and 9
    slots beyond. *)
Theorem main_default_run (args : cli_args) (data : profiling_data)
    (stats : list kernel_stat) :
  config_file args = None ->
  show_kernels args = false ->
  json_file args = Loaded data ->
  kernel_statistics data = Some stats ->
  stats <> [] ->
  ~ zero_frame_time data ->
  exists slots,
    main which sort_values args = Run 0 (Some slots) /\
    length slots = (if decide (8 < length stats) then 9 else length stats).
Proof.
  intros Hc Hk Hj Hs Hne Hnz. unfold main. rewrite Hc, Hj.
  pose proof (create_dataframe_shape sort_values sort_values_sorts
                (init_kernel_name_mapping None) data) as Hf.
  destruct (create_dataframe _ _ data) as [[|]|df].
  - congruence.
  - rewrite Hs in Hf. injection Hf as ->. congruence.
  - destruct Hf as (stats' & Hs' & Hdf & Hlen & Hd & _).
    rewrite Hs in Hs'. injection Hs' as <-. rewrite Hk.
    destruct (print_summary_ok data df Hd Hdf Hnz) as (r & _ & -> & _).
    unfold create_chart. cbn [manual_display add_statistics_box_flag].
    pose proof (charts_draw_prepared_slots df [] Hdf) as Hch.
    destruct (prepare_display_data df []) as [[[lbls szs] cs]|e] eqn:Ep;
      [|simpl in Ep; destruct (decide _); discriminate].
    destruct Hch as (slots & Hpie & Hbar & Hl & _).
    destruct (prepared_shape _ _ _ _ _ Ep) as (_ & _ & Hn).
    assert (Hsl : length slots = length lbls) by (rewrite <- Hl, length_map; reflexivity).
    rewrite Hlen in Hn.
    destruct which; [rewrite Hbar | rewrite Hpie]; cbn [mbind result_bind];
      eexists; (split; [reflexivity|]).
    + rewrite (Permutation_length (sort_desc_perm slots)). congruence.
    + congruence.
Qed.

(** X16.  When the summary gives an average frame time of zero, the statistics
    box raises the division by zero, and so does [print_summary]: once the
    data are loaded and the frame is built, [main] ends with exit code 1
    before any chart is made, unless it only lists the kernels. *)
Theorem zero_frame_time_aborts (args : cli_args) (data : profiling_data)
    (stats : list kernel_stat) (lbls : list string) (szs : list Q) :
  config_file args <> Some LoadFailed ->
  show_kernels args = false ->
  json_file args = Loaded data ->
  kernel_statistics data = Some stats ->
  stats <> [] ->
  zero_frame_time data ->
  add_statistics_box data lbls szs = Raise ZeroDivisionError /\
  main which sort_values args = Run 1 None.
Proof.
  intros Hc Hk Hj Hs Hne Hz. split.
  - destruct Hz as (summary & t & Hsm & Ht & Hz). unfold add_statistics_box.
    rewrite Hsm. simpl.
    rewrite decide_False by (intros ->; rewrite lookup_empty in Ht; discriminate).
    rewrite (estimated_fps_zero summary t Ht Hz). reflexivity.
  - unfold main. rewrite Hj.
    pose proof (create_dataframe_shape sort_values sort_values_sorts
                  (init_kernel_name_mapping None) data) as Hf.
    destruct (create_dataframe _ _ data) as [[|]|df].
    + destruct (config_file args) as [[?|]|]; reflexivity.
    + destruct (config_file args) as [[?|]|]; reflexivity.
    + rewrite Hk, (print_summary_zero_frame_time data df Hz).
      destruct (config_file args) as [[?|]|]; reflexivity.
Qed.

End Main.

(** X17.  Whatever makes [prepare_display_data] fail for the loaded
    configuration makes [main] end with exit code 1 and no saved chart. *)
Theorem main_preparation_failure (which : chart_function)
    (sort_values : list kernel -> list kernel) (args : cli_args)
    (config : custom_config) (data : profiling_data) (df : list kernel) (e : exn) :
  config_file args = Some (Loaded config) ->
  show_kernels args = false ->
  json_file args = Loaded data ->
  create_dataframe sort_values (init_kernel_name_mapping None) data = inr df ->
  prepare_display_data df (manual_display config) = Raise e ->
  main which sort_values args = Run 1 None.
Proof.
  intros Hc Hk Hj Hf Hp. unfold main. rewrite Hc, Hj, Hf, Hk.
  destruct (print_summary data df); [|reflexivity].
  unfold create_chart, create_academic_bar_chart, create_academic_pie_chart.
  rewrite Hp. destruct which; reflexivity.
Qed.

Lemma sample_data_frame_time : ~ zero_frame_time sample_data.
Proof.
  intros (summary & t & Hs & Ht & Hz). injection Hs as <-.
  vm_compute in Ht. injection Ht as <-. vm_compute in Hz. discriminate.
Qed.

Lemma main_default_run_witness :
  exists slots,
    main BarChart sort_rows (CliArgs None (Loaded sample_data) false) =
      Run 0 (Some slots) /\
    length slots = 2.
Proof.
  apply (main_default_run sort_rows sort_rows_sorts BarChart
           (CliArgs None (Loaded sample_data) false) sample_data
           [KernelStat "CollideSDF" 30; KernelStat "Custom" 70]%Q);
    try reflexivity; [discriminate | apply sample_data_frame_time].
Defined.

Lemma zero_frame_time_aborts_witness :
  let data := ProfilingData (Some [KernelStat "CollideSDF" 100%Q])
                (Some {["avg_frame_time_ms" := 0%Q]}) in
  main PieChart sort_rows (CliArgs None (Loaded data) false) = Run 1 None.
Proof.
  intros data.
  apply (zero_frame_time_aborts sort_rows sort_rows_sorts PieChart
           (CliArgs None (Loaded data) false) data [KernelStat "CollideSDF" 100%Q] [] []);
    try reflexivity; try discriminate.
  exists {["avg_frame_time_ms" := 0%Q]}, 0%Q. repeat split.
Defined.

Lemma main_preparation_failure_witness :
  main BarChart sort_rows
    (CliArgs (Some (Loaded (CustomConfig [individual "DoesNotExist" None None] false)))
       (Loaded sample_data) false) = Run 1 None.
Proof.
  eapply (main_preparation_failure BarChart sort_rows _
            (CustomConfig [individual "DoesNotExist" None None] false) sample_data);
    reflexivity.
Defined.


(** ** Colours without directives *)

Lemma NoDup_palette : NoDup palette.
Proof.
  unfold palette. change (map ColorStr ?l) with (ColorStr <$> l).
  apply NoDup_fmap_2.
  - intros x y H. injection H as ->. reflexivity.
  - apply (bool_decide_unpack _). vm_compute. exact I.
Qed.

(** X18.  Up to ten colours asked of [get_academic_colors] are pairwise
    different, as many as asked for; so without directives no two slots
    are drawn in the same colour. *)
Theorem default_colors_distinct (n : nat) (df : list kernel) :
  n <= 10 ->
  length (get_academic_colors n) = n /\
  NoDup (get_academic_colors n) /\
  exists lbls szs fc,
    prepare_display_data df [] = Ok (lbls, szs, map Some fc) /\
    length fc = length lbls /\ NoDup fc.
Proof.
  intros Hn.
  assert (Hnd : forall m, m <= 10 -> NoDup (get_academic_colors m)).
  { intros m Hm. unfold get_academic_colors. rewrite decide_True by exact Hm.
    eapply sublist_NoDup; [apply NoDup_palette | apply sublist_take]. }
  split; [apply length_get_academic_colors|]. split; [apply Hnd, Hn|].
  assert (Ht : length (take 8 df) = Nat.min 8 (length df)) by apply length_take.
  simpl. destruct (decide (8 < length df)).
  - do 3 eexists. split; [reflexivity|].
    split; [apply length_get_academic_colors|].
    apply Hnd. rewrite length_app, length_map. simpl. lia.
  - do 3 eexists. split; [reflexivity|].
    split; [apply length_get_academic_colors|].
    apply Hnd. rewrite length_map. lia.
Qed.

Lemma default_colors_distinct_witness :
  length (get_academic_colors 3) = 3 /\ NoDup (get_academic_colors 3).
Proof.
  destruct (default_colors_distinct 3 [] ltac:(lia)) as (H1 & H2 & _).
  split; [exact H1 | exact H2].
Defined.

(** ** The left margin of the bar chart *)

(** X19.  The left margin of the bar chart lies between 0.15 and 0.4 for every
    font size of the labels, and a larger font size never gives a smaller
    margin. *)
Theorem left_margin_bounds (f g : Q) :
  (f <= g)%Q ->
  (15 # 100 <= left_margin f <= 4 # 10)%Q /\ (left_margin f <= left_margin g)%Q.
Proof.
  intros Hfg. unfold left_margin, max2, min2.
  destruct (Qltb (f * (2 # 100)) (4 # 10)) eqn:Ef;
    destruct (Qltb (g * (2 # 100)) (4 # 10)) eqn:Eg;
    [apply Qltb_true in Ef | apply Qltb_true in Ef
    | apply Qltb_false in Ef | apply Qltb_false in Ef];
    [apply Qltb_true in Eg | apply Qltb_false in Eg
    | apply Qltb_true in Eg | apply Qltb_false in Eg];
    repeat match goal with
    | |- context [Qltb ?a ?b] =>
        let E := fresh "E" in
        destruct (Qltb a b) eqn:E;
          [apply Qltb_true in E | apply Qltb_false in E]
    end;
    repeat split; lra.
Qed.

Lemma left_margin_bounds_witness :
  (15 # 100 <= left_margin 11 <= 4 # 10)%Q /\ (left_margin 11 <= left_margin 30)%Q.
Proof. apply (left_margin_bounds 11 30). discriminate. Defined.
